(** * silo-atq-module: the tag service of [src/main.mts]

    A shallow embedding of the module that resolves a subgraph URL for a
    chain, pages through the Silo creation records of that subgraph and
    reshapes the valid ones into contract tags.

    JavaScript strings are sequences of UTF-16 code units: [length],
    [substring], [trim], the regular expression of [containsInvalidValue]
    and [encodeURIComponent] all work on code units, so that is the
    representation used here. *)

From Stdlib Require Import String Ascii.
From Stdlib Require Import List ZArith NArith Bool Lia.
From Stdlib Require DecimalString.
Import ListNotations.

Local Open Scope string_scope.
Local Open Scope N_scope.
Local Open Scope list_scope.

(** ** Strings *)

(** A UTF-16 code unit (a number below 65536). *)
Definition code_unit := N.

(** A JavaScript string value. *)
Definition str := list code_unit.

(** The string written by an ASCII literal of the source. *)
Definition u16 (s : String.string) : str :=
  map Ascii.N_of_ascii (String.list_ascii_of_string s).

Definition str_eqb (a b : str) : bool :=
  if list_eq_dec N.eq_dec a b then true else false.

(** [a.startsWith(p)], returning what follows the prefix. *)
Fixpoint strip_prefix (p s : str) : option str :=
  match p, s with
  | [], _ => Some s
  | _ :: _, [] => None
  | x :: p', y :: s' => if x =? y then strip_prefix p' s' else None
  end.

(** The first occurrence of [pat] in [s]: the text before it and the text
    after it. *)
Fixpoint split_first (pat s : str) : option (str * str) :=
  match strip_prefix pat s with
  | Some rest => Some ([], rest)
  | None =>
      match s with
      | [] => None
      | c :: s' =>
          match split_first pat s' with
          | Some (before, after) => Some (c :: before, after)
          | None => None
          end
      end
  end.


(** [parts.join(sep)]. *)
Fixpoint join (sep : str) (parts : list str) : str :=
  match parts with
  | [] => []
  | [p] => p
  | p :: rest => p ++ sep ++ join sep rest
  end.

(** WhiteSpace and LineTerminator code points of ECMAScript, the set that
    [String.prototype.trim] strips and that [Number] ignores around a
    numeric literal: TAB, LF, VT, FF, CR, SP, NBSP, the Zs category, LS, PS
    and the byte order mark. *)
Definition isWhiteSpace (c : code_unit) : bool :=
  (c =? 9) || (c =? 10) || (c =? 11) || (c =? 12) || (c =? 13) ||
  (c =? 32) || (c =? 160) || (c =? 5760) ||
  ((8192 <=? c) && (c <=? 8202)) ||
  (c =? 8232) || (c =? 8233) || (c =? 8239) || (c =? 8287) ||
  (c =? 12288) || (c =? 65279).

Fixpoint trimStart (s : str) : str :=
  match s with
  | [] => []
  | c :: s' => if isWhiteSpace c then trimStart s' else s
  end.

Definition trimEnd (s : str) : str := rev (trimStart (rev s)).

(** [s.trim()]. *)
Definition trim (s : str) : str := trimEnd (trimStart s).

(** [s.substring(0, n)] for a non-negative [n]. *)
Definition substring0 (s : str) (n : nat) : str := firstn n s.

(** Decimal rendering of an integer, as a template literal does for an
    integral number. *)
Definition Z_to_str (z : Z) : str := u16 (DecimalString.NilZero.string_of_int (Z.to_int z)).

(** ** Values, exceptions and the console *)

#[local] Set Warnings "-register-all".

(** The JavaScript values that can reach a [catch] clause.  An error object
    is an instance of [Error] or of one of its subclasses ([TypeError],
    [URIError], the [FetchError] of node-fetch, ...): it inherits
    [Error.prototype.toString].  A plain object inherits from
    [Object.prototype] only and holds data properties. *)
Inductive JsValue : Type :=
| JsUndefined
| JsNull
| JsBoolean (b : bool)
| JsNumber (z : Z)
| JsString (s : str)
| JsErrorObject (name message : str)
| JsPlainObject (props : list (str * JsValue)).

(** [new Error(message)]. *)
Definition new_Error (message : str) : JsValue :=
  JsErrorObject (u16 "Error") message.

(** The outcome of evaluating code that may throw. *)
Inductive Completion (A : Type) : Type :=
| Return (a : A)
| Throw (e : JsValue).
Arguments Return {A} a.
Arguments Throw {A} e.

Definition bind {A B} (c : Completion A) (k : A -> Completion B)
  : Completion B :=
  match c with
  | Return a => k a
  | Throw e => Throw e
  end.

Notation "x <- c ;; k" := (bind c (fun x => k))
  (at level 61, c at next level, right associativity).

(** What the module writes to the console. *)
Inductive ConsoleEvent : Type :=
| console_error (message : str)
| console_log (label : str) (items : list str).

Definition Console := list ConsoleEvent.

(** Own data property of a plain object. *)
Fixpoint own_property {V} (props : list (str * V)) (key : str) : option V :=
  match props with
  | [] => None
  | (k, v) :: rest => if str_eqb k key then Some v else own_property rest key
  end.

(** [typeof v === "object"]. *)
Definition typeof_object (v : JsValue) : bool :=
  match v with
  | JsNull | JsErrorObject _ _ | JsPlainObject _ => true
  | _ => false
  end.

(** [e.toString()] on an error object ([Error.prototype.toString]). *)
Definition Error_toString (name message : str) : str :=
  match name, message with
  | [], _ => message
  | _, [] => name
  | _, _ => name ++ u16 ": " ++ message
  end.

(** The string a template literal puts in place of [${v}]. *)
Definition ToString (v : JsValue) : str :=
  match v with
  | JsUndefined => u16 "undefined"
  | JsNull => u16 "null"
  | JsBoolean true => u16 "true"
  | JsBoolean false => u16 "false"
  | JsNumber z => Z_to_str z
  | JsString s => s
  | JsErrorObject name message => Error_toString name message
  | JsPlainObject _ => u16 "[object Object]"
  end.

(** ** URI encoding and replacement *)

Definition isDigit (c : code_unit) : bool := (48 <=? c) && (c <=? 57).

Definition isAlpha (c : code_unit) : bool :=
  ((65 <=? c) && (c <=? 90)) || ((97 <=? c) && (c <=? 122)).

(** uriMark: - _ . ! ~ * ' ( ) *)
Definition isUriMark (c : code_unit) : bool :=
  (c =? 45) || (c =? 95) || (c =? 46) || (c =? 33) || (c =? 126) ||
  (c =? 42) || (c =? 39) || (c =? 40) || (c =? 41).

(** The characters [encodeURIComponent] leaves as they are. *)
Definition isUriUnescaped (c : code_unit) : bool :=
  isAlpha c || isDigit c || isUriMark c.

Definition isLeadingSurrogate (c : code_unit) : bool :=
  (55296 <=? c) && (c <=? 56319).

Definition isTrailingSurrogate (c : code_unit) : bool :=
  (56320 <=? c) && (c <=? 57343).

Definition hexDigit (n : N) : code_unit :=
  if n <? 10 then 48 + n else 55 + n.

(** An octet as a percent sign and two upper-case hexadecimal digits. *)
Definition percentOctet (b : N) : str :=
  [37; hexDigit (b / 16); hexDigit (b mod 16)].

(** The UTF-8 octets of a code point. *)
Definition utf8 (cp : N) : list N :=
  if cp <? 128 then [cp]
  else if cp <? 2048 then [192 + cp / 64; 128 + cp mod 64]
  else if cp <? 65536 then
    [224 + cp / 4096; 128 + (cp / 64) mod 64; 128 + cp mod 64]
  else
    [240 + cp / 262144; 128 + (cp / 4096) mod 64;
     128 + (cp / 64) mod 64; 128 + cp mod 64].

Definition percentEncode (cp : N) : str :=
  flat_map percentOctet (utf8 cp).

(** The exception of a malformed URI component (the message is V8's). *)
Definition URIError : JsValue :=
  JsErrorObject (u16 "URIError") (u16 "URI malformed").

(** [encodeURIComponent(s)]: unescaped characters are copied, any other
    code point is written as the percent-encoded octets of its UTF-8 form,
    and a surrogate without its partner throws. *)
Fixpoint encodeURIComponent (s : str) : Completion str :=
  match s with
  | [] => Return []
  | c :: rest =>
      if isUriUnescaped c then
        r <- encodeURIComponent rest ;; Return (c :: r)
      else if isTrailingSurrogate c then Throw URIError
      else if isLeadingSurrogate c then
        match rest with
        | d :: rest' =>
            if isTrailingSurrogate d then
              r <- encodeURIComponent rest' ;;
              Return (percentEncode
                        ((c - 55296) * 1024 + (d - 56320) + 65536) ++ r)
            else Throw URIError
        | [] => Throw URIError
        end
      else
        r <- encodeURIComponent rest ;; Return (percentEncode c ++ r)
  end.

(** No surrogate of the string stands without its partner. *)
Fixpoint isWellFormed (s : str) : bool :=
  match s with
  | [] => true
  | c :: rest =>
      if isTrailingSurrogate c then false
      else if isLeadingSurrogate c then
        match rest with
        | d :: rest' => isTrailingSurrogate d && isWellFormed rest'
        | [] => false
        end
      else isWellFormed rest
  end.

(** The replacement text of [String.prototype.replace] for a string
    pattern: [$$], [$&], [$`] and [$'] are expanded; with no capture groups
    every other use of [$] stands for itself. *)
Fixpoint GetSubstitution (matched before after template : str) : str :=
  match template with
  | [] => []
  | c :: r =>
      if c =? 36 then
        match r with
        | d :: r' =>
            if d =? 36 then 36 :: GetSubstitution matched before after r'
            else if d =? 38 then
              matched ++ GetSubstitution matched before after r'
            else if d =? 96 then
              before ++ GetSubstitution matched before after r'
            else if d =? 39 then
              after ++ GetSubstitution matched before after r'
            else c :: GetSubstitution matched before after r
        | [] => [c]
        end
      else c :: GetSubstitution matched before after r
  end.

(** [s.replace(pat, replacement)] with a string pattern: the first
    occurrence only. *)
Definition replace (s pat replacement : str) : str :=
  match split_first pat s with
  | None => s
  | Some (before, after) =>
      before ++ GetSubstitution pat before after replacement ++ after
  end.

(** ** Numeric strings *)

Definition isHexDigit (c : code_unit) : bool :=
  isDigit c || ((65 <=? c) && (c <=? 70)) || ((97 <=? c) && (c <=? 102)).

Definition isOctalDigit (c : code_unit) : bool := (48 <=? c) && (c <=? 55).

Definition isBinaryDigit (c : code_unit) : bool := (c =? 48) || (c =? 49).

(** One digit or more, all of the given kind. *)
Definition digits1 (digit : code_unit -> bool) (s : str) : bool :=
  match s with
  | [] => false
  | _ :: _ => forallb digit s
  end.

(** The longest run of decimal digits at the front, and what follows. *)
Fixpoint spanDigits (s : str) : str * str :=
  match s with
  | [] => ([], [])
  | c :: r =>
      if isDigit c then let (d, t) := spanDigits r in (c :: d, t)
      else ([], s)
  end.

Definition isSign (c : code_unit) : bool := (c =? 43) || (c =? 45).

(** ExponentPart, or nothing. *)
Definition isExponentOpt (s : str) : bool :=
  match s with
  | [] => true
  | c :: r =>
      ((c =? 101) || (c =? 69)) &&
      match r with
      | d :: r' => if isSign d then digits1 isDigit r' else digits1 isDigit r
      | [] => false
      end
  end.

(** StrUnsignedDecimalLiteral. *)
Definition isStrUnsignedDecimalLiteral (s : str) : bool :=
  if str_eqb s (u16 "Infinity") then true
  else
    let (int_part, r) := spanDigits s in
    match r with
    | 46 :: r1 =>
        let (frac_part, r2) := spanDigits r1 in
        match int_part, frac_part with
        | [], [] => false
        | _, _ => isExponentOpt r2
        end
    | _ =>
        match int_part with
        | [] => false
        | _ :: _ => isExponentOpt r
        end
    end.

(** StrNumericLiteral: a signed decimal literal or an unsigned binary, octal
    or hexadecimal integer literal. *)
Definition isStrNumericLiteral (s : str) : bool :=
  match s with
  | 48 :: x :: r =>
      if (x =? 120) || (x =? 88) then digits1 isHexDigit r
      else if (x =? 111) || (x =? 79) then digits1 isOctalDigit r
      else if (x =? 98) || (x =? 66) then digits1 isBinaryDigit r
      else isStrUnsignedDecimalLiteral s
  | c :: r =>
      if isSign c then isStrUnsignedDecimalLiteral r
      else isStrUnsignedDecimalLiteral s
  | [] => false
  end.

(** [isNaN(Number(s))] for a string [s]: [Number] trims white space, reads
    the empty string as 0 and gives NaN exactly when what is left is not a
    StrNumericLiteral. *)
Definition isNaN_Number (s : str) : bool :=
  match trim s with
  | [] => false
  | t => negb (isStrNumericLiteral t)
  end.

(** The value of a run of decimal digits. *)
Definition digitsValue (s : str) : N :=
  fold_left (fun acc c => 10 * acc + (c - 48)) s 0.

(** The array index a property key denotes, when it is the canonical
    decimal form of an integer below 2^32 - 1. *)
Definition arrayIndex (key : str) : option N :=
  match key with
  | [] => None
  | c :: r =>
      if forallb isDigit key &&
         (negb (c =? 48) || match r with [] => true | _ => false end)
      then
        if digitsValue key <? 4294967295 then Some (digitsValue key) else None
      else None
  end.

Fixpoint insertIndex (i : N) (k : str) (l : list (N * str)) : list (N * str) :=
  match l with
  | [] => [(i, k)]
  | (j, k') :: rest =>
      if i <? j then (i, k) :: l else (j, k') :: insertIndex i k rest
  end.

(** [Object.keys(o)]: array-index keys in ascending numeric order, then the
    other string keys in the order they were created. *)
Definition Object_keys {V} (props : list (str * V)) : list str :=
  let keys := map fst props in
  let indexed :=
    fold_left
      (fun acc k =>
         match arrayIndex k with Some i => insertIndex i k acc | None => acc end)
      keys [] in
  map snd indexed ++
  filter (fun k => match arrayIndex k with Some _ => false | None => true end)
         keys.

(** ** The subgraph table *)

Record SubgraphUrls : Type := { decentralized : str }.

Definition SUBGRAPH_URLS : list (str * SubgraphUrls) :=
  [ (u16 "1",
     {| decentralized := u16 "https://gateway.thegraph.com/api/[api-key]/subgraphs/id/GTEyHhRmhRRJkQfrDWsapcZ8sBKAka4GFej6gn3BpJNq" |});
    (u16 "10",
     {| decentralized := u16 "https://gateway.thegraph.com/api/[api-key]/subgraphs/id/HVhUwbDrY5uGyz5u3bvKQVfmagVet3Uwy7jWjFrvT6s6" |});
    (u16 "8453",
     {| decentralized := u16 "https://gateway.thegraph.com/api/[api-key]/subgraphs/id/HzQEXpsJuq7XQa4zXEJU38aUnG7mgZ6gA74HauHyYZzQ" |});
    (u16 "42161",
     {| decentralized := u16 "https://gateway.thegraph.com/api/[api-key]/subgraphs/id/2ufoztRpybsgogPVW6j9NTn1JmBWFYPKbP7pAabizADU" |}) ].

(** The property names every object inherits from [Object.prototype]; each
    of them reads as a function or, for [__proto__], as the prototype
    object. *)
Definition Object_prototype_names : list str :=
  map u16
    [ "constructor"; "__defineGetter__"; "__defineSetter__"; "hasOwnProperty";
      "__lookupGetter__"; "__lookupSetter__"; "isPrototypeOf";
      "propertyIsEnumerable"; "toString"; "valueOf"; "__proto__";
      "toLocaleString" ]%string.

(** What [SUBGRAPH_URLS[chainId]] evaluates to. *)
Inductive TableLookup : Type :=
| OwnEntry (urls : SubgraphUrls)
| Inherited
| Undefined.

Definition lookup_SUBGRAPH_URLS (chainId : str) : TableLookup :=
  match own_property SUBGRAPH_URLS chainId with
  | Some urls => OwnEntry urls
  | None =>
      if existsb (str_eqb chainId) Object_prototype_names then Inherited
      else Undefined
  end.

(** Truthiness of the looked-up value: objects and functions are truthy,
    [undefined] is not. *)
Definition truthy (v : TableLookup) : bool :=
  match v with
  | OwnEntry _ | Inherited => true
  | Undefined => false
  end.

(** The exception of calling a method of [undefined] (the message is
    V8's). *)
Definition TypeError_replace : JsValue :=
  JsErrorObject (u16 "TypeError")
    (u16 "Cannot read properties of undefined (reading 'replace')").

Definition placeholder : str := u16 "[api-key]".

(** The message of the error thrown for a chain that is not served. *)
Definition unsupported_message (chainId : str) : str :=
  u16 "Unsupported or invalid Chain ID provided: " ++ chainId ++
  u16 ". Only the following values are accepted: " ++
  join (u16 ", ") (Object_keys SUBGRAPH_URLS).

Definition prepareUrl (chainId apiKey : str) : Completion str :=
  let urls := lookup_SUBGRAPH_URLS chainId in
  if negb (truthy urls) || isNaN_Number chainId then
    Throw (new_Error (unsupported_message chainId))
  else
    match urls with
    | OwnEntry u =>
        key <- encodeURIComponent apiKey ;;
        Return (replace (decentralized u) placeholder key)
    | _ => Throw TypeError_replace
    end.

(** ** Records of the subgraph and type guard *)

Record Silo : Type := {
  id : str;
  name : str;
  createdTimestamp : Z
}.

Record GraphQLError : Type := { message : str }.

(** [silos] is read defensively by [fetchData], so it may be missing. *)
Record GraphQLData : Type := { silos : option (list Silo) }.

Record GraphQLResponse : Type := {
  data : option GraphQLData;
  errors : option (list GraphQLError)
}.

(** A tag: the properties of the object literal, in the order written. *)
Definition ContractTag := list (str * str).

(** [key in v] for an object [v]. *)
Definition has_property (key : str) (v : JsValue) : bool :=
  match v with
  | JsErrorObject _ _ =>
      existsb (str_eqb key) (map u16 ["message"; "name"; "stack"]%string) ||
      existsb (str_eqb key) Object_prototype_names
  | JsPlainObject props =>
      match own_property props key with
      | Some _ => true
      | None => existsb (str_eqb key) Object_prototype_names
      end
  | _ => false
  end.

(** [v.message]. *)
Definition get_message (v : JsValue) : JsValue :=
  match v with
  | JsErrorObject _ m => JsString m
  | JsPlainObject props =>
      match own_property props (u16 "message") with
      | Some m => m
      | None => JsUndefined
      end
  | _ => JsUndefined
  end.

Definition typeof_string (v : JsValue) : bool :=
  match v with JsString _ => true | _ => false end.

Definition is_null (v : JsValue) : bool :=
  match v with JsNull => true | _ => false end.

Definition isError (e : JsValue) : bool :=
  typeof_object e &&
  negb (is_null e) &&
  has_property (u16 "message") e &&
  typeof_string (get_message e).

(** The exception of converting an object that has no callable [toString]
    (the message is V8's). *)
Definition TypeError_primitive : JsValue :=
  JsErrorObject (u16 "TypeError")
    (u16 "Cannot convert object to primitive value").

(** [`${v}`]: the string conversion of a template literal.  A plain object
    answers with [Object.prototype.toString] unless a data property hides
    that method, in which case the conversion throws. *)
Definition template_ToString (v : JsValue) : Completion str :=
  match v with
  | JsPlainObject props =>
      match own_property props (u16 "toString") with
      | Some _ => Throw TypeError_primitive
      | None => Return (ToString v)
      end
  | _ => Return (ToString v)
  end.

(** ** Validation and truncation *)

(** The fragment of regular expressions that the source uses. *)
Inductive regex : Type :=
| Char (c : code_unit)
| NotChar (c : code_unit)
| Star (r : regex)
| Cat (r1 r2 : regex).

Inductive matches : regex -> str -> Prop :=
| matches_Char c : matches (Char c) [c]
| matches_NotChar c d : d <> c -> matches (NotChar c) [d]
| matches_Star_nil r : matches (Star r) []
| matches_Star_cons r a b :
    matches r a -> matches (Star r) b -> matches (Star r) (a ++ b)
| matches_Cat r1 r2 a b :
    matches r1 a -> matches r2 b -> matches (Cat r1 r2) (a ++ b).

(** [/<[^>]*>/] *)
Definition htmlTag : regex := Cat (Char 60) (Cat (Star (NotChar 62)) (Char 62)).

(** [[^>]*>] tried at the front of [s]: the star runs over everything that
    is not [>], and giving characters back cannot help, so the attempt
    succeeds exactly when a [>] is reached. *)
Fixpoint htmlTag_rest (s : str) : bool :=
  match s with
  | [] => false
  | c :: r => if c =? 62 then true else htmlTag_rest r
  end.

(** [/<[^>]*>/.test(s)]: the pattern is tried at each position in turn. *)
Fixpoint htmlTag_test (s : str) : bool :=
  match s with
  | [] => false
  | c :: r => if (c =? 60) && htmlTag_rest r then true else htmlTag_test r
  end.

Definition containsInvalidValue (text : str) : bool :=
  let containsHtml := htmlTag_test text in
  let isEmpty := str_eqb (trim text) [] in
  isEmpty || containsHtml.

Definition truncateString (text : str) (maxLength : nat) : str :=
  if (maxLength <? length text)%nat then
    substring0 text (maxLength - 3) ++ u16 "..."
  else text.

(** ** Transformation *)

(** The callback of [validSilos.map]. *)
Definition siloToTag (chainId : str) (silo : Silo) : ContractTag :=
  let maxNameLength := 45%nat in
  let truncatedNameText := truncateString (name silo) maxNameLength in
  [ (u16 "Contract Address", u16 "eip155:" ++ chainId ++ u16 ":" ++ id silo);
    (u16 "Public Name Tag", truncatedNameText ++ u16 " Silo");
    (u16 "Project Name", u16 "Silo v1");
    (u16 "UI/Website Link", u16 "https://app.silo.finance/");
    (u16 "Public Note",
     u16 "Silo v1's official " ++ name silo ++ u16 " Silo contract.") ].

(** The line pushed to [rejectedNames]. *)
Definition rejection (silo : Silo) : str :=
  u16 "Silo: " ++ id silo ++
  u16 " rejected due to invalid name - Name: " ++ name silo.

(** The callback of [silos.forEach], on the pair of arrays it pushes to. *)
Definition sortSilo (acc : list Silo * list str) (silo : Silo)
  : list Silo * list str :=
  let (validSilos, rejectedNames) := acc in
  let nameInvalid := containsInvalidValue (name silo) in
  if nameInvalid then (validSilos, rejectedNames ++ [rejection silo])
  else (validSilos ++ [silo], rejectedNames).

Definition transformSilosToTags (chainId : str) (silos : list Silo)
    (con : Console) : list ContractTag * Console :=
  let (validSilos, rejectedNames) := fold_left sortSilo silos ([], []) in
  let con' :=
    if (0 <? length rejectedNames)%nat
    then con ++ [console_log (u16 "Rejected silos:") rejectedNames]
    else con in
  (map (siloToTag chainId) validSilos, con').

(** ** The network *)

(** A JavaScript number as far as the cursor needs it: an integer, or the
    [-Infinity] that [Math.max()] gives without arguments. *)
Inductive number : Type :=
| Finite (z : Z)
| NegInfinity.

Definition number_max (acc : number) (z : Z) : number :=
  match acc with
  | NegInfinity => Finite z
  | Finite y => Finite (Z.max y z)
  end.

(** [Math.max(...values)]. *)
Definition Math_max (values : list Z) : number :=
  fold_left number_max values NegInfinity.

(** The response object of node-fetch: [ok], [status], and what
    [response.json()] settles to. *)
Record Response : Type := {
  ok : bool;
  status : Z;
  json : Completion GraphQLResponse
}.

(** How one call of [fetch] settles. *)
Inductive FetchOutcome : Type :=
| fetch_resolves (response : Response)
| fetch_rejects (reason : JsValue).

(** A request as far as the module varies it: the endpoint and the
    [lastTimestamp] variable of the query. *)
Record Request : Type := {
  request_url : str;
  request_lastTimestamp : number
}.

(** What an invocation leaves behind: the requests it sent and the lines it
    wrote, oldest first. *)
Record World : Type := {
  requests : list Request;
  console : Console
}.

Definition send (r : Request) (w : World) : World :=
  {| requests := requests w ++ [r]; console := console w |}.

Definition write (events : list ConsoleEvent) (w : World) : World :=
  {| requests := requests w; console := console w ++ events |}.

(** [fetchData(subgraphUrl, lastTimestamp)], given how the request it sends
    is answered. *)
Definition fetchData (subgraphUrl : str) (lastTimestamp : number)
    (answer : FetchOutcome) (w : World) : Completion (list Silo) * World :=
  let w := send {| request_url := subgraphUrl;
                   request_lastTimestamp := lastTimestamp |} w in
  match answer with
  | fetch_rejects reason => (Throw reason, w)
  | fetch_resolves response =>
      if negb (ok response) then
        (Throw (new_Error (u16 "HTTP error: " ++ Z_to_str (status response))),
         w)
      else
        match json response with
        | Throw reason => (Throw reason, w)
        | Return result =>
            match errors result with
            | Some errs =>
                (Throw (new_Error
                          (u16 "GraphQL errors occurred: see logs for details.")),
                 write (map (fun error =>
                               console_error
                                 (u16 "GraphQL error: " ++ message error))
                            errs) w)
            | None =>
                match data result with
                | None => (Throw (new_Error (u16 "No silos data found.")), w)
                | Some d =>
                    match silos d with
                    | None =>
                        (Throw (new_Error (u16 "No silos data found.")), w)
                    | Some page => (Return page, w)
                    end
                end
            end
        end
  end.

(** ** The tag service *)

(** The [catch] clause of [returnTags]: what it throws in turn, and what it
    writes before. *)
Definition catchClause (error : JsValue) (w : World) : JsValue * World :=
  if isError error then
    let w := write [console_error
                      (u16 "An error occurred: " ++ ToString (get_message error))]
                   w in
    match template_ToString error with
    | Return text => (new_Error (u16 "Failed fetching data: " ++ text), w)
    | Throw e => (e, w)
    end
  else
    (new_Error (u16 "An unknown error occurred during fetch operation."),
     write [console_error (u16 "An unknown error occurred.")] w).

(** How the promise of [returnTags] ends: settled, or still waiting for an
    answer that the network never gives. *)
Inductive Settlement : Type :=
| Settled (c : Completion (list ContractTag))
| Awaiting.

(** The [while (isMore)] loop, entered with [isMore] true.  [answers] are the
    outcomes of the calls of [fetch], in order. *)
Fixpoint returnTags_loop (chainId url : str) (answers : list FetchOutcome)
    (allTags : list ContractTag) (lastTimestamp : number) (w : World)
  : Settlement * World :=
  match answers with
  | [] =>
      (Awaiting,
       send {| request_url := url; request_lastTimestamp := lastTimestamp |} w)
  | answer :: answers' =>
      match fetchData url lastTimestamp answer w with
      | (Return page, w1) =>
          let (tags, con) := transformSilosToTags chainId page (console w1) in
          let w2 := {| requests := requests w1; console := con |} in
          let allTags := allTags ++ tags in
          let isMore := (length page =? 1000)%nat in
          if isMore then
            returnTags_loop chainId url answers' allTags
              (Math_max (map createdTimestamp page)) w2
          else (Settled (Return allTags), w2)
      | (Throw error, w1) =>
          let (thrown, w2) := catchClause error w1 in
          (Settled (Throw thrown), w2)
      end
  end.

Definition emptyWorld : World := {| requests := []; console := [] |}.

Definition returnTags (chainId apiKey : str) (answers : list FetchOutcome)
  : Settlement * World :=
  let allTags : list ContractTag := [] in
  let lastTimestamp := Finite 0 in
  match prepareUrl chainId apiKey with
  | Throw e => (Settled (Throw e), emptyWorld)
  | Return url => returnTags_loop chainId url answers allTags lastTimestamp emptyWorld
  end.

(** ** Vocabulary of the statements *)

(** The chains the table serves. *)
Definition supportedChainIds : list str :=
  map u16 ["1"; "10"; "8453"; "42161"]%string.

(** How many positions of [s] start an occurrence of [pat]. *)
Fixpoint occurrences (pat s : str) : nat :=
  (match strip_prefix pat s with Some _ => 1 | None => 0 end +
   match s with
   | [] => 0
   | _ :: s' => occurrences pat s'
   end)%nat.


(** [s] reads [<], then anything, then [>]. *)
Definition tagShaped (s : str) : Prop :=
  exists body, s = 60 :: body ++ [62].

(** The characters [encodeURIComponent] can put out: the unescaped ones, the
    percent sign and the upper-case hexadecimal digits. *)
Definition isUriOutput (c : code_unit) : bool :=
  isUriUnescaped c || (c =? 37).

(** The value of a property of a tag. *)
Definition field (key : String.string) (tag : ContractTag) : option str :=
  own_property tag (u16 key).

(** A record whose name passes validation. *)
Definition validSilo (silo : Silo) : bool :=
  negb (containsInvalidValue (name silo)).

(** A record whose name fails validation. *)
Definition invalidSilo (silo : Silo) : bool := containsInvalidValue (name silo).

(** A page of the subgraph, answered without errors. *)
Definition pageAnswer (page : list Silo) : FetchOutcome :=
  fetch_resolves
    {| ok := true; status := 200;
       json := Return {| data := Some {| silos := Some page |};
                         errors := None |} |}.

(** The request of a page, by its cursor. *)
Definition pageRequest (url : str) (cursor : number) : Request :=
  {| request_url := url; request_lastTimestamp := cursor |}.

(** The cursor that follows a full page. *)
Definition nextCursor (page : list Silo) : number :=
  Math_max (map createdTimestamp page).

(** The tags of a page. *)
Definition pageTags (chainId : str) (page : list Silo) : list ContractTag :=
  map (siloToTag chainId) (filter validSilo page).

(** [count] records named "Alpha", created at [from], [from + 1], ... *)
Definition examplePage (from count : nat) : list Silo :=
  map (fun i => {| id := u16 "0x" ++ Z_to_str (Z.of_nat i);
                   name := u16 "Alpha";
                   createdTimestamp := Z.of_nat i |})
      (seq from count).

(** Order of cursors. *)
Definition number_lt (a b : number) : Prop :=
  match a, b with
  | NegInfinity, Finite _ => True
  | Finite x, Finite y => (x < y)%Z
  | _, NegInfinity => False
  end.

(** Each cursor of the list is below the next one. *)
Fixpoint increasing (cursors : list number) : Prop :=
  match cursors with
  | a :: (b :: _) as rest => number_lt a b /\ increasing rest
  | _ => True
  end.

(** The pages answer the query they were asked with: the records of each
    page were created after the cursor of its request
    ([createdTimestamp_gt: $lastTimestamp]). *)
Fixpoint respectsCursor (cursor : number) (pages : list (list Silo)) : Prop :=
  match pages with
  | [] => True
  | page :: pages' =>
      Forall (fun silo => number_lt cursor (Finite (createdTimestamp silo))) page /\
      respectsCursor (nextCursor page) pages'
  end.

(** Every element is a UTF-16 code unit. *)
Definition isString (s : str) : bool := forallb (fun c => c <? 65536) s.

(** ** Strings: basic facts *)

Lemma str_eqb_eq (a b : str) : str_eqb a b = true <-> a = b.
Proof.
  unfold str_eqb. destruct (list_eq_dec N.eq_dec a b); split; congruence.
Qed.

Lemma str_eqb_refl (a : str) : str_eqb a a = true.
Proof. now apply str_eqb_eq. Qed.

Lemma str_eqb_neq (a b : str) : str_eqb a b = false <-> a <> b.
Proof.
  unfold str_eqb. destruct (list_eq_dec N.eq_dec a b); split; congruence.
Qed.

Lemma strip_prefix_spec (p s rest : str) :
  strip_prefix p s = Some rest <-> s = p ++ rest.
Proof.
  revert s. induction p as [|x p IH]; intros s; simpl.
  - split; congruence.
  - destruct s as [|y s]; [split; discriminate|].
    destruct (N.eqb_spec x y) as [->|Hne].
    + rewrite IH. split; congruence.
    + split; [discriminate|]. intros [= Hxy _]. congruence.
Qed.

Lemma split_first_sound (pat s before after : str) :
  split_first pat s = Some (before, after) -> s = before ++ pat ++ after.
Proof.
  revert before. induction s as [|c s IH]; intros before.
  - simpl. destruct (strip_prefix pat []) eqn:E.
    + intros [= <- <-]. now apply strip_prefix_spec in E.
    + discriminate.
  - simpl. destruct (strip_prefix pat (c :: s)) eqn:E.
    + intros [= <- <-]. now apply strip_prefix_spec in E.
    + destruct (split_first pat s) as [[b a]|] eqn:E'; [|discriminate].
      intros [= <- <-]. simpl. f_equal. now apply IH.
Qed.



(** Boolean comparisons on code units, as propositions. *)
Ltac bool_goal :=
  repeat match goal with
  | |- _ && _ = true => apply andb_true_iff; split
  | |- _ || _ = false => apply orb_false_iff; split
  | |- negb _ = true => apply negb_true_iff
  | |- (_ <=? _) = true => apply N.leb_le
  | |- (_ <=? _) = false => apply N.leb_gt
  | |- (_ <? _) = true => apply N.ltb_lt
  | |- (_ <? _) = false => apply N.ltb_ge
  | |- (_ =? _) = true => apply N.eqb_eq
  | |- (_ =? _) = false => apply N.eqb_neq
  end.

(** Induction that steps over one or two code units, as the surrogate
    handling of [encodeURIComponent] does. *)
Lemma str_pair_ind (P : str -> Prop) :
  P [] ->
  (forall c, P [c]) ->
  (forall c d s, P s -> P (d :: s) -> P (c :: d :: s)) ->
  forall s, P s.
Proof.
  intros Hnil Hone Hstep s.
  assert (H : P s /\ forall c, P (c :: s)); [|tauto].
  induction s as [|d s [IH1 IH2]]; split; auto.
Qed.

(** ** URI encoding: what comes out *)

Lemma hexDigit_unescaped (n : N) : n < 16 -> isUriUnescaped (hexDigit n) = true.
Proof.
  intros Hn. unfold isUriUnescaped, hexDigit, isAlpha, isDigit.
  destruct (N.ltb_spec n 10).
  - apply orb_true_iff; left. apply orb_true_iff; right. bool_goal; lia.
  - apply orb_true_iff; left. apply orb_true_iff; left.
    apply orb_true_iff; left. bool_goal; lia.
Qed.

Lemma percentOctet_output (b : N) :
  b < 256 -> forallb isUriOutput (percentOctet b) = true.
Proof.
  intros Hb. unfold percentOctet.
  assert (H1 : isUriUnescaped (hexDigit (b / 16)) = true).
  { apply hexDigit_unescaped, N.Div0.div_lt_upper_bound. lia. }
  assert (H2 : isUriUnescaped (hexDigit (b mod 16)) = true).
  { now apply hexDigit_unescaped, N.mod_lt. }
  cbn [forallb]. unfold isUriOutput at 2 3. rewrite H1, H2. reflexivity.
Qed.

Lemma utf8_octets (cp : N) :
  cp < 1114112 -> Forall (fun b => b < 256) (utf8 cp).
Proof.
  intros Hcp. unfold utf8.
  assert (cp mod 64 < 64) by now apply N.mod_lt.
  assert ((cp / 64) mod 64 < 64) by now apply N.mod_lt.
  assert ((cp / 4096) mod 64 < 64) by now apply N.mod_lt.
  destruct (N.ltb_spec cp 128); [repeat constructor; lia|].
  destruct (N.ltb_spec cp 2048).
  { assert (cp / 64 < 32) by (apply N.Div0.div_lt_upper_bound; lia).
    repeat constructor; lia. }
  destruct (N.ltb_spec cp 65536).
  { assert (cp / 4096 < 16) by (apply N.Div0.div_lt_upper_bound; lia).
    repeat constructor; lia. }
  assert (cp / 262144 < 5) by (apply N.Div0.div_lt_upper_bound; lia).
  repeat constructor; lia.
Qed.

Lemma percentEncode_output (cp : N) :
  cp < 1114112 -> forallb isUriOutput (percentEncode cp) = true.
Proof.
  intros Hcp. unfold percentEncode.
  pose proof (utf8_octets cp Hcp) as Hall.
  induction Hall as [|b l Hb _ IH]; cbn [flat_map]; [reflexivity|].
  now rewrite forallb_app, IH, percentOctet_output.
Qed.

Ltac nbool :=
  rewrite ?orb_true_iff, ?andb_true_iff, ?orb_false_iff, ?andb_false_iff,
    ?negb_true_iff, ?negb_false_iff, ?N.leb_le, ?N.leb_gt, ?N.ltb_lt,
    ?N.ltb_ge, ?N.eqb_eq, ?N.eqb_neq in *.

Lemma unescaped_not_surrogate (c : code_unit) :
  isUriUnescaped c = true ->
  isTrailingSurrogate c = false /\ isLeadingSurrogate c = false.
Proof.
  unfold isUriUnescaped, isAlpha, isDigit, isUriMark, isTrailingSurrogate,
    isLeadingSurrogate.
  intros H. split.
  - destruct ((56320 <=? c) && (c <=? 57343)) eqn:E; [|reflexivity].
    exfalso. nbool. lia.
  - destruct ((55296 <=? c) && (c <=? 56319)) eqn:E; [|reflexivity].
    exfalso. nbool. lia.
Qed.

Lemma isUriOutput_plain (c : code_unit) :
  isUriOutput c = true -> c <> 36 /\ c <> 91.
Proof.
  unfold isUriOutput, isUriUnescaped, isAlpha, isDigit, isUriMark.
  intros H. nbool. lia.
Qed.

Lemma encodeURIComponent_cons (c : code_unit) (rest : str) :
  encodeURIComponent (c :: rest) =
  if isUriUnescaped c then
    r <- encodeURIComponent rest ;; Return (c :: r)
  else if isTrailingSurrogate c then Throw URIError
  else if isLeadingSurrogate c then
    match rest with
    | d :: rest' =>
        if isTrailingSurrogate d then
          r <- encodeURIComponent rest' ;;
          Return (percentEncode ((c - 55296) * 1024 + (d - 56320) + 65536) ++ r)
        else Throw URIError
    | [] => Throw URIError
    end
  else r <- encodeURIComponent rest ;; Return (percentEncode c ++ r).
Proof. reflexivity. Qed.

Lemma isWellFormed_cons (c : code_unit) (rest : str) :
  isWellFormed (c :: rest) =
  if isTrailingSurrogate c then false
  else if isLeadingSurrogate c then
    match rest with
    | d :: rest' => isTrailingSurrogate d && isWellFormed rest'
    | [] => false
    end
  else isWellFormed rest.
Proof. reflexivity. Qed.

Lemma surrogate_pair_range (c d : code_unit) :
  isLeadingSurrogate c = true -> isTrailingSurrogate d = true ->
  (c - 55296) * 1024 + (d - 56320) + 65536 < 1114112.
Proof.
  unfold isLeadingSurrogate, isTrailingSurrogate. intros Hc Hd. nbool. lia.
Qed.

(** A well-formed string is encoded, and the result is made of unescaped
    characters, percent signs and hexadecimal digits only. *)
Lemma encodeURIComponent_wellFormed (s : str) :
  isString s = true -> isWellFormed s = true ->
  exists r, encodeURIComponent s = Return r /\ forallb isUriOutput r = true.
Proof.
  induction s as [| c | c d s IHs IHds] using str_pair_ind.
  - intros _ _. now exists [].
  - intros Hs Hw. rewrite encodeURIComponent_cons.
    rewrite isWellFormed_cons in Hw.
    unfold isString in Hs. cbn [forallb] in Hs.
    apply andb_true_iff in Hs as [Hc _]. apply N.ltb_lt in Hc.
    destruct (isUriUnescaped c) eqn:Eu.
    + exists [c]. split; [reflexivity|]. cbn [forallb]. unfold isUriOutput.
      now rewrite Eu.
    + destruct (isTrailingSurrogate c); [discriminate|].
      destruct (isLeadingSurrogate c); [discriminate|].
      exists (percentEncode c ++ []). split; [reflexivity|].
      rewrite app_nil_r. apply percentEncode_output. lia.
  - intros Hs Hw. rewrite encodeURIComponent_cons.
    rewrite isWellFormed_cons in Hw.
    assert (Hc : c < 65536 /\ isString (d :: s) = true /\ isString s = true).
    { unfold isString in *. cbn [forallb] in *. nbool. tauto. }
    destruct Hc as (Hc & Hds & Hss).
    destruct (isUriUnescaped c) eqn:Eu.
    + destruct (unescaped_not_surrogate c Eu) as [Et El].
      rewrite Et, El in Hw.
      destruct (IHds Hds Hw) as (r & -> & Hr).
      exists (c :: r). split; [reflexivity|]. cbn [forallb].
      unfold isUriOutput at 1. now rewrite Eu, Hr.
    + destruct (isTrailingSurrogate c); [discriminate|].
      destruct (isLeadingSurrogate c) eqn:El.
      * apply andb_true_iff in Hw as [Ed Hw]. rewrite Ed.
        destruct (IHs Hss Hw) as (r & -> & Hr).
        eexists. split; [reflexivity|].
        rewrite forallb_app, Hr, percentEncode_output; [reflexivity|].
        now apply surrogate_pair_range.
      * destruct (IHds Hds Hw) as (r & -> & Hr).
        eexists. split; [reflexivity|].
        rewrite forallb_app, Hr, percentEncode_output; [reflexivity|lia].
Qed.

(** A string that is not well formed is refused. *)
Lemma encodeURIComponent_malformed (s : str) :
  isWellFormed s = false -> encodeURIComponent s = Throw URIError.
Proof.
  induction s as [| c | c d s IHs IHds] using str_pair_ind.
  - discriminate.
  - rewrite isWellFormed_cons, encodeURIComponent_cons.
    destruct (isUriUnescaped c) eqn:Eu.
    + destruct (unescaped_not_surrogate c Eu) as [-> ->]. discriminate.
    + destruct (isTrailingSurrogate c); [reflexivity|].
      destruct (isLeadingSurrogate c); [reflexivity|discriminate].
  - rewrite isWellFormed_cons, encodeURIComponent_cons.
    destruct (isUriUnescaped c) eqn:Eu.
    + destruct (unescaped_not_surrogate c Eu) as [-> ->].
      intros Hw. now rewrite (IHds Hw).
    + destruct (isTrailingSurrogate c); [reflexivity|].
      destruct (isLeadingSurrogate c).
      * destruct (isTrailingSurrogate d); [|reflexivity].
        intros Hw. now rewrite (IHs Hw).
      * intros Hw. now rewrite (IHds Hw).
Qed.

Lemma GetSubstitution_plain (matched before after template : str) :
  ~ In 36 template ->
  GetSubstitution matched before after template = template.
Proof.
  induction template as [|c r IH]; [reflexivity|].
  intros Hno. cbn [GetSubstitution].
  destruct (N.eqb_spec c 36) as [->|_].
  - exfalso. apply Hno. now left.
  - f_equal. apply IH. intros Hin. apply Hno. now right.
Qed.

Lemma output_plain (r : str) :
  forallb isUriOutput r = true -> ~ In 36 r /\ ~ In 91 r.
Proof.
  rewrite forallb_forall. intros H.
  split; intros Hin; apply H, isUriOutput_plain in Hin; tauto.
Qed.

Lemma occurrences_absent (c : code_unit) (pat s : str) :
  ~ In c s -> occurrences (c :: pat) s = 0%nat.
Proof.
  induction s as [|x s IH]; [reflexivity|].
  intros Hno. cbn [occurrences strip_prefix].
  destruct (N.eqb_spec c x) as [->|_].
  - exfalso. apply Hno. now left.
  - apply IH. intros Hin. apply Hno. now right.
Qed.

(** ** The subgraph table: lookups *)

Lemma own_property_absent {V} (props : list (str * V)) (key : str) :
  ~ In key (map fst props) -> own_property props key = None.
Proof.
  induction props as [|[k v] props IH]; [reflexivity|].
  cbn [map fst In own_property]. intros Hno.
  destruct (str_eqb k key) eqn:E.
  - apply str_eqb_eq in E. tauto.
  - apply IH. tauto.
Qed.

Lemma SUBGRAPH_URLS_keys : map fst SUBGRAPH_URLS = supportedChainIds.
Proof. reflexivity. Qed.

Lemma Object_keys_SUBGRAPH_URLS : Object_keys SUBGRAPH_URLS = supportedChainIds.
Proof. vm_compute. reflexivity. Qed.

Lemma supported_list_text :
  join (u16 ", ") supportedChainIds = u16 "1, 10, 8453, 42161".
Proof. reflexivity. Qed.

(** No name inherited from [Object.prototype] reads as a number. *)
Lemma prototype_names_NaN (key : str) :
  In key Object_prototype_names -> isNaN_Number key = true.
Proof.
  assert (H : forallb isNaN_Number Object_prototype_names = true)
    by (vm_compute; reflexivity).
  rewrite forallb_forall in H. apply H.
Qed.

Lemma prepareUrl_throws (chainId apiKey : str) :
  own_property SUBGRAPH_URLS chainId = None ->
  prepareUrl chainId apiKey = Throw (new_Error (unsupported_message chainId)).
Proof.
  intros Hown. unfold prepareUrl, lookup_SUBGRAPH_URLS. rewrite Hown.
  destruct (existsb (str_eqb chainId) Object_prototype_names) eqn:E.
  - apply existsb_exists in E as (k & Hin & Hk).
    apply str_eqb_eq in Hk. subst k.
    now rewrite (prototype_names_NaN chainId Hin).
  - reflexivity.
Qed.

Lemma prepareUrl_own (chainId apiKey : str) (u : SubgraphUrls) :
  own_property SUBGRAPH_URLS chainId = Some u ->
  isNaN_Number chainId = false ->
  prepareUrl chainId apiKey =
  (key <- encodeURIComponent apiKey ;;
   Return (replace (decentralized u) placeholder key)).
Proof.
  intros Hown Hnum. unfold prepareUrl, lookup_SUBGRAPH_URLS.
  now rewrite Hown, Hnum.
Qed.

Lemma replace_plain (s pat before after replacement : str) :
  split_first pat s = Some (before, after) ->
  ~ In 36 replacement ->
  replace s pat replacement = before ++ replacement ++ after.
Proof.
  intros Hsplit Hplain. unfold replace. rewrite Hsplit.
  now rewrite GetSubstitution_plain.
Qed.

(** The shape of a successful resolution, for one entry of the table. *)
Lemma prepareUrl_entry (chainId apiKey : str) (u : SubgraphUrls)
    (before after : str) :
  own_property SUBGRAPH_URLS chainId = Some u ->
  isNaN_Number chainId = false ->
  split_first placeholder (decentralized u) = Some (before, after) ->
  forallb (fun c => negb (c =? 91)) (before ++ after) = true ->
  isString apiKey = true -> isWellFormed apiKey = true ->
  exists key,
    decentralized u = before ++ placeholder ++ after /\
    encodeURIComponent apiKey = Return key /\
    forallb isUriOutput key = true /\
    prepareUrl chainId apiKey = Return (before ++ key ++ after) /\
    occurrences placeholder (before ++ key ++ after) = 0%nat.
Proof.
  intros Hown Hnum Hsplit Hfree Hs Hw.
  destruct (encodeURIComponent_wellFormed apiKey Hs Hw) as (key & Hkey & Hout).
  destruct (output_plain key Hout) as [Hdollar Hbracket].
  exists key. repeat split; trivial.
  - now apply split_first_sound.
  - rewrite (prepareUrl_own _ _ u Hown Hnum), Hkey. cbn [bind].
    now rewrite (replace_plain _ _ before after).
  - change placeholder with (91 :: u16 "api-key]").
    apply occurrences_absent.
    rewrite forallb_app, andb_true_iff, !forallb_forall in Hfree.
    destruct Hfree as [Hb Ha].
    rewrite !in_app_iff. intros [Hin|[Hin|Hin]]; [ | tauto | ].
    + apply Hb in Hin. discriminate.
    + apply Ha in Hin. discriminate.
Qed.

(** ** The URL resolver *)

(** C1.  For every chain identifier outside the supported set "1", "10",
    "8453", "42161" (a key of [Object.prototype], a non-numeric string and
    the empty string included), and whatever the credential, [prepareUrl]
    throws an [Error] whose message names the identifier and then lists
    exactly the supported identifiers, "1, 10, 8453, 42161"; it returns no
    URL. *)
Theorem prepareUrl_unsupported (chainId apiKey : str) :
  ~ In chainId supportedChainIds ->
  prepareUrl chainId apiKey =
    Throw (new_Error
             (u16 "Unsupported or invalid Chain ID provided: " ++ chainId ++
              u16 ". Only the following values are accepted: " ++
              u16 "1, 10, 8453, 42161")) /\
  join (u16 ", ") supportedChainIds = u16 "1, 10, 8453, 42161" /\
  forall url, prepareUrl chainId apiKey <> Return url.
Proof.
  intros Hno.
  assert (H : prepareUrl chainId apiKey =
              Throw (new_Error (unsupported_message chainId))).
  { apply prepareUrl_throws, own_property_absent.
    now rewrite SUBGRAPH_URLS_keys. }
  unfold unsupported_message in H.
  rewrite Object_keys_SUBGRAPH_URLS, supported_list_text in H.
  rewrite H. repeat split. discriminate.
Qed.

Lemma prepareUrl_unsupported_witness :
  ~ In (u16 "abc") supportedChainIds /\
  prepareUrl (u16 "abc") (u16 "secret") =
    Throw (new_Error
             (u16 "Unsupported or invalid Chain ID provided: abc. Only the following values are accepted: 1, 10, 8453, 42161")).
Proof.
  assert (H : ~ In (u16 "abc") supportedChainIds)
    by (cbv; intuition discriminate).
  split; [exact H|].
  exact (proj1 (prepareUrl_unsupported (u16 "abc") (u16 "secret") H)).
Defined.

Example prepareUrl_rejects :
  map (fun chainId => prepareUrl (u16 chainId) (u16 "secret"))
      ["2"; ""; "toString"; "01"; " 1"]%string =
  map (fun chainId =>
         Throw (new_Error
                  (u16 "Unsupported or invalid Chain ID provided: " ++
                   u16 chainId ++
                   u16 ". Only the following values are accepted: 1, 10, 8453, 42161")))
      ["2"; ""; "toString"; "01"; " 1"]%string.
Proof. vm_compute. reflexivity. Qed.

(** C2, as the code has it.  For each of the four supported chain
    identifiers and every credential that is a well-formed UTF-16 string (no
    surrogate without its partner), [prepareUrl] returns the chain's
    endpoint template with its one occurrence of "[api-key]" replaced by
    [encodeURIComponent] of the credential; the placeholder does not occur
    in the result.  For a credential that is not well formed it throws the
    [URIError] of [encodeURIComponent]. *)
Theorem prepareUrl_supported (chainId apiKey : str) :
  In chainId supportedChainIds ->
  isString apiKey = true ->
  (isWellFormed apiKey = true ->
   exists u before after key,
     own_property SUBGRAPH_URLS chainId = Some u /\
     decentralized u = before ++ placeholder ++ after /\
     occurrences placeholder (decentralized u) = 1%nat /\
     encodeURIComponent apiKey = Return key /\
     forallb isUriOutput key = true /\
     prepareUrl chainId apiKey = Return (before ++ key ++ after) /\
     occurrences placeholder (before ++ key ++ after) = 0%nat) /\
  (isWellFormed apiKey = false ->
   prepareUrl chainId apiKey = Throw URIError).
Proof.
  intros Hin Hs.
  assert (Hentry :
    exists u before after,
      own_property SUBGRAPH_URLS chainId = Some u /\
      isNaN_Number chainId = false /\
      split_first placeholder (decentralized u) = Some (before, after) /\
      forallb (fun c => negb (c =? 91)) (before ++ after) = true /\
      occurrences placeholder (decentralized u) = 1%nat).
  { cbn [supportedChainIds map In] in Hin.
    destruct Hin as [<-|[<-|[<-|[<-|[]]]]];
      eexists; eexists; eexists; repeat split; vm_compute; reflexivity. }
  destruct Hentry as (u & before & after & Hown & Hnum & Hsplit & Hfree & Hocc).
  split; intros Hw.
  - destruct (prepareUrl_entry chainId apiKey u before after
                Hown Hnum Hsplit Hfree Hs Hw)
      as (key & Ht & Hkey & Hout & Hurl & Hzero).
    exists u, before, after, key. tauto.
  - rewrite (prepareUrl_own _ _ u Hown Hnum).
    now rewrite (encodeURIComponent_malformed apiKey Hw).
Qed.

Lemma prepareUrl_supported_witness :
  exists u before after key,
    own_property SUBGRAPH_URLS (u16 "8453") = Some u /\
    decentralized u = before ++ placeholder ++ after /\
    occurrences placeholder (decentralized u) = 1%nat /\
    encodeURIComponent (u16 "k/1 $&") = Return key /\
    forallb isUriOutput key = true /\
    prepareUrl (u16 "8453") (u16 "k/1 $&") = Return (before ++ key ++ after) /\
    occurrences placeholder (before ++ key ++ after) = 0%nat.
Proof.
  apply (prepareUrl_supported (u16 "8453") (u16 "k/1 $&")).
  - cbv. tauto.
  - reflexivity.
  - reflexivity.
Defined.

Example prepareUrl_of_8453 :
  prepareUrl (u16 "8453") (u16 "k/1 $&") =
  Return (u16 "https://gateway.thegraph.com/api/k%2F1%20%24%26/subgraphs/id/HzQEXpsJuq7XQa4zXEJU38aUnG7mgZ6gA74HauHyYZzQ").
Proof. vm_compute. reflexivity. Qed.

(** C2, counterexample to the claim as stated: a credential holding a lone
    surrogate is a string, the chain is supported, and [prepareUrl] throws
    a [URIError] instead of returning a URL. *)
Lemma prepareUrl_lone_surrogate :
  In (u16 "1") supportedChainIds /\
  isString [55296] = true /\
  prepareUrl (u16 "1") [55296] = Throw URIError /\
  ~ (forall chainId apiKey,
        In chainId supportedChainIds -> isString apiKey = true ->
        exists url, prepareUrl chainId apiKey = Return url).
Proof.
  assert (Hin : In (u16 "1") supportedChainIds) by (cbv; tauto).
  assert (Hthrow : prepareUrl (u16 "1") [55296] = Throw URIError)
    by (vm_compute; reflexivity).
  repeat split; trivial.
  intros H. destruct (H (u16 "1") [55296] Hin eq_refl) as [url Hurl].
  congruence.
Qed.

(** ** Validation: the regular expression and [trim] *)

Lemma htmlTag_rest_In (s : str) : htmlTag_rest s = true <-> In 62 s.
Proof.
  induction s as [|c s IH]; cbn [htmlTag_rest In].
  - split; [discriminate|tauto].
  - destruct (N.eqb_spec c 62) as [->|Hne].
    + tauto.
    + rewrite IH. split; [tauto|]. intros [E|H]; [congruence|exact H].
Qed.

Lemma htmlTag_test_spec (s : str) :
  htmlTag_test s = true <-> exists pre rest, s = pre ++ 60 :: rest /\ In 62 rest.
Proof.
  induction s as [|c s IH]; cbn [htmlTag_test].
  - split; [discriminate|]. intros (pre & rest & E & _).
    destruct pre; discriminate.
  - destruct ((c =? 60) && htmlTag_rest s) eqn:E.
    + apply andb_true_iff in E as [Ec Er]. apply N.eqb_eq in Ec. subst c.
      apply htmlTag_rest_In in Er. split; [|reflexivity].
      intros _. now exists [], s.
    + rewrite IH. split.
      * intros (pre & rest & -> & Hin). now exists (c :: pre), rest.
      * intros (pre & rest & Heq & Hin). destruct pre as [|x pre].
        -- injection Heq as -> ->. apply htmlTag_rest_In in Hin.
           rewrite Hin, N.eqb_refl in E. discriminate.
        -- injection Heq as -> ->. now exists pre, rest.
Qed.

Lemma first_occurrence (c : code_unit) (s : str) :
  In c s -> exists body post, s = body ++ c :: post /\ ~ In c body.
Proof.
  induction s as [|x s IH]; [contradiction|].
  destruct (N.eq_dec x c) as [->|Hne].
  - intros _. exists [], s. split; [reflexivity|tauto].
  - intros [E|Hin]; [congruence|].
    destruct (IH Hin) as (body & post & -> & Hno).
    exists (x :: body), post. split; [reflexivity|].
    intros [E|H]; [congruence|tauto].
Qed.

Lemma matches_star_notchar (c : code_unit) (s : str) :
  matches (Star (NotChar c)) s <-> ~ In c s.
Proof.
  split.
  - intros H. remember (Star (NotChar c)) as r eqn:Er.
    induction H as [| | |r a b Ha _ Hb IHb|]; try discriminate.
    + tauto.
    + injection Er as ->. inversion Ha; subst.
      cbn [app In]. intros [E|Hin]; [congruence|now apply IHb].
  - induction s as [|d s IH]; intros Hno.
    + constructor.
    + change (d :: s) with ([d] ++ s). constructor.
      * constructor. intros ->. apply Hno. now left.
      * apply IH. intros Hin. apply Hno. now right.
Qed.

Lemma matches_htmlTag (m : str) :
  matches htmlTag m <-> exists body, m = 60 :: body ++ [62] /\ ~ In 62 body.
Proof.
  unfold htmlTag. split.
  - intros H. inversion H as [| | | |? ? a b Ha Hb]; subst.
    inversion Ha; subst.
    inversion Hb as [| | | |? ? body e Hbody He]; subst.
    inversion He; subst. apply matches_star_notchar in Hbody.
    now exists body.
  - intros (body & -> & Hno).
    change (60 :: body ++ [62]) with ([60] ++ body ++ [62]).
    repeat constructor. now apply matches_star_notchar.
Qed.

(** The test succeeds exactly on the strings that hold a match of the
    regular expression, and those are the strings that hold a [<] with a
    [>] somewhere after it. *)
Lemma htmlTag_test_matches (s : str) :
  htmlTag_test s = true <->
  exists pre m post, s = pre ++ m ++ post /\ matches htmlTag m.
Proof.
  rewrite htmlTag_test_spec. split.
  - intros (pre & rest & -> & Hin).
    destruct (first_occurrence 62 rest Hin) as (body & post & -> & Hno).
    exists pre, (60 :: body ++ [62]), post. split.
    + cbn [app]. now rewrite <- app_assoc.
    + apply matches_htmlTag. now exists body.
  - intros (pre & m & post & -> & Hm).
    apply matches_htmlTag in Hm as (body & -> & _).
    exists pre, (body ++ [62] ++ post). split.
    + cbn [app]. now rewrite <- app_assoc.
    + rewrite !in_app_iff. right. left. now left.
Qed.

Lemma htmlTag_test_tagShaped (s : str) :
  htmlTag_test s = true <->
  exists pre m post, s = pre ++ m ++ post /\ tagShaped m.
Proof.
  rewrite htmlTag_test_spec. split.
  - intros (pre & rest & -> & Hin).
    destruct (first_occurrence 62 rest Hin) as (body & post & -> & _).
    exists pre, (60 :: body ++ [62]), post. split.
    + cbn [app]. now rewrite <- app_assoc.
    + now exists body.
  - intros (pre & m & post & -> & body & ->).
    exists pre, (body ++ [62] ++ post). split.
    + cbn [app]. now rewrite <- app_assoc.
    + rewrite !in_app_iff. right. left. now left.
Qed.

Lemma trimStart_nil (s : str) :
  trimStart s = [] <-> forallb isWhiteSpace s = true.
Proof.
  induction s as [|c s IH]; cbn [trimStart forallb]; [tauto|].
  destruct (isWhiteSpace c); cbn [andb]; [exact IH|].
  split; discriminate.
Qed.

Lemma trimStart_head (s : str) :
  match trimStart s with
  | [] => True
  | c :: _ => isWhiteSpace c = false
  end.
Proof.
  induction s as [|c s IH]; cbn [trimStart]; [exact I|].
  destruct (isWhiteSpace c) eqn:E; [exact IH|exact E].
Qed.

(** Trimming leaves nothing exactly when the string is white space only. *)
Lemma trim_nil (s : str) : trim s = [] <-> forallb isWhiteSpace s = true.
Proof.
  unfold trim, trimEnd. rewrite <- trimStart_nil. split.
  - intros H. apply (f_equal (@rev _)) in H.
    rewrite rev_involutive in H. cbn [rev] in H.
    apply trimStart_nil in H. rewrite forallb_forall in H.
    pose proof (trimStart_head s) as Hh.
    destruct (trimStart s) as [|c t]; [reflexivity|].
    rewrite (H c) in Hh; [discriminate|].
    apply in_rev. rewrite rev_involutive. now left.
  - intros ->. reflexivity.
Qed.

Lemma containsInvalidValue_spec (text : str) :
  containsInvalidValue text = true <->
  trim text = [] \/
  exists pre m post, text = pre ++ m ++ post /\ matches htmlTag m.
Proof.
  unfold containsInvalidValue.
  rewrite orb_true_iff, str_eqb_eq, htmlTag_test_matches. tauto.
Qed.

(** ** The transformer *)

Lemma sortSilo_fold (silos : list Silo) (valid : list Silo) (rejected : list str) :
  fold_left sortSilo silos (valid, rejected) =
  (valid ++ filter validSilo silos,
   rejected ++ map rejection (filter invalidSilo silos)).
Proof.
  revert valid rejected.
  induction silos as [|silo silos IH]; intros valid rejected.
  - cbn. now rewrite !app_nil_r.
  - cbn [fold_left filter]. unfold sortSilo at 2, validSilo, invalidSilo.
    destruct (containsInvalidValue (name silo)); cbn [negb map];
      rewrite IH, <- app_assoc; reflexivity.
Qed.

Lemma transformSilosToTags_tags (chainId : str) (silos : list Silo)
    (con : Console) :
  fst (transformSilosToTags chainId silos con) =
  map (siloToTag chainId) (filter validSilo silos).
Proof.
  unfold transformSilosToTags. now rewrite sortSilo_fold.
Qed.

Lemma transformSilosToTags_console (chainId : str) (silos : list Silo)
    (con : Console) :
  snd (transformSilosToTags chainId silos con) =
  match filter invalidSilo silos with
  | [] => con
  | rejected =>
      con ++ [console_log (u16 "Rejected silos:") (map rejection rejected)]
  end.
Proof.
  unfold transformSilosToTags. rewrite sortSilo_fold. cbn [app snd].
  now destruct (filter invalidSilo silos).
Qed.

(** The tag determines the name it was made from. *)
Lemma siloToTag_name (chainId : str) (a b : Silo) :
  siloToTag chainId a = siloToTag chainId b -> name a = name b.
Proof.
  unfold siloToTag. intros H.
  assert (E : u16 "Silo v1's official " ++ name a ++ u16 " Silo contract." =
              u16 "Silo v1's official " ++ name b ++ u16 " Silo contract.")
    by congruence.
  apply app_inv_head in E. now apply app_inv_tail in E.
Qed.

Lemma truncateString_long (text : str) (maxLength : nat) :
  (3 <= maxLength < length text)%nat ->
  truncateString text maxLength = firstn (maxLength - 3) text ++ u16 "..." /\
  length (truncateString text maxLength) = maxLength.
Proof.
  intros H. unfold truncateString, substring0.
  destruct (Nat.ltb_spec maxLength (length text)); [|lia].
  split; [reflexivity|].
  rewrite length_app, length_firstn. cbn [length u16 map String.list_ascii_of_string].
  lia.
Qed.

Lemma truncateString_short (text : str) (maxLength : nat) :
  (length text <= maxLength)%nat -> truncateString text maxLength = text.
Proof.
  intros H. unfold truncateString.
  now destruct (Nat.ltb_spec maxLength (length text)); [lia|].
Qed.

Lemma Forall2_map_r {A B} (P : A -> B -> Prop) (f : A -> B) (l : list A) :
  (forall a, In a l -> P a (f a)) -> Forall2 P l (map f l).
Proof.
  induction l as [|a l IH]; intros H; cbn [map]; constructor.
  - apply H. now left.
  - apply IH. intros x Hx. apply H. now right.
Qed.

(** C3.  A record is left out of the output exactly when its name is empty
    after trimming or holds a match of [/<[^>]*>/], that is a substring
    that starts with [<] and ends with [>]: the tags are those of the
    records that pass, in order; the records that fail are written, by
    identifier and raw name, to one "Rejected silos:" log entry.  A name of
    blanks and "<b>Evil</b>" are refused, "Good Silo" passes. *)
Theorem transform_excludes_invalid (chainId : str) (silos : list Silo)
    (con : Console) :
  (forall text,
      containsInvalidValue text = true <->
      trim text = [] \/
      exists pre m post, text = pre ++ m ++ post /\ matches htmlTag m) /\
  (forall text,
      (exists pre m post, text = pre ++ m ++ post /\ matches htmlTag m) <->
      (exists pre m post, text = pre ++ m ++ post /\ tagShaped m)) /\
  (forall text, trim text = [] <-> forallb isWhiteSpace text = true) /\
  fst (transformSilosToTags chainId silos con) =
    map (siloToTag chainId)
        (filter (fun silo => negb (containsInvalidValue (name silo))) silos) /\
  (forall silo, In silo silos ->
      (~ In (siloToTag chainId silo)
            (fst (transformSilosToTags chainId silos con)) <->
       containsInvalidValue (name silo) = true)) /\
  snd (transformSilosToTags chainId silos con) =
    match filter (fun silo => containsInvalidValue (name silo)) silos with
    | [] => con
    | rejected =>
        con ++
        [console_log (u16 "Rejected silos:")
           (map (fun silo =>
                   u16 "Silo: " ++ id silo ++
                   u16 " rejected due to invalid name - Name: " ++ name silo)
                rejected)]
    end /\
  containsInvalidValue (u16 "  ") = true /\
  containsInvalidValue (u16 "<b>Evil</b>") = true /\
  containsInvalidValue (u16 "Good Silo") = false.
Proof.
  split; [exact containsInvalidValue_spec|].
  split; [intros text; now rewrite <- htmlTag_test_matches, htmlTag_test_tagShaped|].
  split; [exact trim_nil|].
  split; [apply transformSilosToTags_tags|].
  split.
  - intros silo Hin. rewrite transformSilosToTags_tags, in_map_iff. split.
    + intros Hout. destruct (containsInvalidValue (name silo)) eqn:E; trivial.
      exfalso. apply Hout. exists silo. split; [reflexivity|].
      apply filter_In. unfold validSilo. now rewrite E.
    + intros Hinv (other & Htag & Hother).
      apply filter_In in Hother as [_ Hvalid]. unfold validSilo in Hvalid.
      apply siloToTag_name in Htag. rewrite Htag, Hinv in Hvalid.
      discriminate.
  - split; [apply transformSilosToTags_console|].
    repeat split; vm_compute; reflexivity.
Qed.

(** C4.  In the tag of every valid record, the public name tag is the name
    portion followed by " Silo"; for a name longer than 45 code units the
    name portion is the first 42 code units and then "...", 45 in all; for
    a name of at most 45 it is the name itself. *)
Theorem public_name_truncation (chainId : str) (silos : list Silo)
    (con : Console) :
  Forall2
    (fun silo tag =>
       ((45 < length (name silo))%nat ->
        field "Public Name Tag" tag =
          Some ((firstn 42 (name silo) ++ u16 "...") ++ u16 " Silo") /\
        length (firstn 42 (name silo) ++ u16 "...") = 45%nat) /\
       ((length (name silo) <= 45)%nat ->
        field "Public Name Tag" tag = Some (name silo ++ u16 " Silo")))
    (filter validSilo silos)
    (fst (transformSilosToTags chainId silos con)).
Proof.
  rewrite transformSilosToTags_tags. apply Forall2_map_r.
  intros silo _. unfold field, siloToTag. split; intros Hlen.
  - destruct (truncateString_long (name silo) 45) as [Ht Hl]; [lia|].
    rewrite Ht in Hl. change (45 - 3)%nat with 42%nat in *.
    split; [|exact Hl]. cbn [own_property]. rewrite Ht.
    vm_compute (str_eqb _ _). reflexivity.
  - cbn [own_property]. rewrite truncateString_short by exact Hlen.
    vm_compute (str_eqb _ _). reflexivity.
Qed.

Example public_name_of_50 :
  let silo := {| id := u16 "0xa"; name := repeat 97 50; createdTimestamp := 1 |} in
  fst (transformSilosToTags (u16 "1") [silo] []) =
  [siloToTag (u16 "1") silo] /\
  field "Public Name Tag" (siloToTag (u16 "1") silo) =
  Some (repeat 97 42 ++ u16 "... Silo").
Proof. split; vm_compute; reflexivity. Qed.

(** C5.  The tag of every valid record has exactly the five properties
    "Contract Address", "Public Name Tag", "Project Name", "UI/Website Link"
    and "Public Note", holding eip155:<chainId>:<id>, the truncated name
    followed by " Silo", "Silo v1", "https://app.silo.finance/" and the
    sentence "Silo v1's official <name> Silo contract." with the name as
    it came. *)
Theorem tag_schema (chainId : str) (silos : list Silo) (con : Console) :
  Forall2
    (fun silo tag =>
       map fst tag =
         map u16 ["Contract Address"; "Public Name Tag"; "Project Name";
                  "UI/Website Link"; "Public Note"]%string /\
       field "Contract Address" tag =
         Some (u16 "eip155:" ++ chainId ++ u16 ":" ++ id silo) /\
       field "Public Name Tag" tag =
         Some (truncateString (name silo) 45 ++ u16 " Silo") /\
       field "Project Name" tag = Some (u16 "Silo v1") /\
       field "UI/Website Link" tag = Some (u16 "https://app.silo.finance/") /\
       field "Public Note" tag =
         Some (u16 "Silo v1's official " ++ name silo ++ u16 " Silo contract."))
    (filter validSilo silos)
    (fst (transformSilosToTags chainId silos con)).
Proof.
  rewrite transformSilosToTags_tags. apply Forall2_map_r.
  intros silo _. unfold field, siloToTag. cbn [own_property map fst].
  repeat split; vm_compute (str_eqb _ _); reflexivity.
Qed.

(** C9.  The tags that [transformSilosToTags] returns depend on the chain
    identifier and the records only: whatever the console held before, and
    in particular when the same call is made a second time after the
    first, the same list of tags comes out. *)
Theorem transform_deterministic (chainId : str) (silos : list Silo)
    (con con' : Console) :
  fst (transformSilosToTags chainId silos con) =
  fst (transformSilosToTags chainId silos con') /\
  fst (transformSilosToTags chainId silos
         (snd (transformSilosToTags chainId silos con))) =
  fst (transformSilosToTags chainId silos con).
Proof.
  now rewrite !transformSilosToTags_tags.
Qed.

(** C10.  A record whose name is not empty after trimming and holds no
    [<...>] substring is kept, whatever white space the name starts or ends
    with, and its tag carries the name as it came: in the note always, and
    in the public name tag when the name has at most 45 code units. *)
Theorem valid_name_verbatim (chainId : str) (silos : list Silo) (silo : Silo)
    (con : Console) :
  In silo silos ->
  trim (name silo) <> [] ->
  ~ (exists pre m post, name silo = pre ++ m ++ post /\ tagShaped m) ->
  exists tag,
    In tag (fst (transformSilosToTags chainId silos con)) /\
    field "Contract Address" tag =
      Some (u16 "eip155:" ++ chainId ++ u16 ":" ++ id silo) /\
    field "Public Note" tag =
      Some (u16 "Silo v1's official " ++ name silo ++ u16 " Silo contract.") /\
    ((length (name silo) <= 45)%nat ->
     field "Public Name Tag" tag = Some (name silo ++ u16 " Silo")).
Proof.
  intros Hin Htrim Htag.
  assert (Hvalid : validSilo silo = true).
  { unfold validSilo, containsInvalidValue.
    apply negb_true_iff, orb_false_iff. split.
    - now apply str_eqb_neq.
    - destruct (htmlTag_test (name silo)) eqn:E; [|reflexivity].
      apply htmlTag_test_tagShaped in E. contradiction. }
  exists (siloToTag chainId silo). split.
  - rewrite transformSilosToTags_tags. apply in_map, filter_In. now split.
  - unfold field, siloToTag. cbn [own_property].
    repeat split; try (vm_compute (str_eqb _ _); reflexivity).
    intros Hlen. rewrite truncateString_short by exact Hlen.
    vm_compute (str_eqb _ _). reflexivity.
Qed.

Lemma valid_name_verbatim_witness :
  let silo := {| id := u16 "0xa"; name := u16 "  Alpha "; createdTimestamp := 7 |} in
  exists tag,
    In tag (fst (transformSilosToTags (u16 "10") [silo] [])) /\
    field "Contract Address" tag = Some (u16 "eip155:10:0xa") /\
    field "Public Note" tag =
      Some (u16 "Silo v1's official   Alpha  Silo contract.") /\
    ((length (name silo) <= 45)%nat ->
     field "Public Name Tag" tag = Some (u16 "  Alpha  Silo")).
Proof.
  intros silo.
  apply (valid_name_verbatim (u16 "10") [silo] silo []).
  - now left.
  - discriminate.
  - intros (pre & m & post & Hname & Hm).
    assert (H : htmlTag_test (name silo) = true).
    { apply htmlTag_test_tagShaped. now exists pre, m, post. }
    discriminate H.
Defined.

(** ** The pagination loop *)

Lemma fold_number_max (values : list Z) (a : Z) :
  fold_left number_max values (Finite a) = Finite (fold_left Z.max values a).
Proof.
  revert a. induction values as [|v values IH]; intros a; [reflexivity|].
  cbn [fold_left number_max]. apply IH.
Qed.

Lemma fold_Zmax_bounds (values : list Z) (a : Z) :
  (a <= fold_left Z.max values a)%Z /\
  Forall (fun v => (v <= fold_left Z.max values a)%Z) values /\
  (fold_left Z.max values a = a \/ In (fold_left Z.max values a) values).
Proof.
  revert a. induction values as [|v values IH]; intros a; cbn [fold_left].
  - repeat split; [lia|constructor|now left].
  - destruct (IH (Z.max a v)) as (Hle & Hall & Hin). repeat split.
    + lia.
    + constructor; [lia|exact Hall].
    + destruct Hin as [E|Hin]; [|right; now right].
      rewrite E. destruct (Z.max_spec a v) as [[_ ->]|[_ ->]].
      * right. now left.
      * now left.
Qed.

(** The cursor after a page that is not empty is the greatest creation
    timestamp of the page. *)
Lemma Math_max_greatest (values : list Z) :
  values <> [] ->
  exists m, Math_max values = Finite m /\ In m values /\
            Forall (fun v => (v <= m)%Z) values.
Proof.
  destruct values as [|a values]; [congruence|]. intros _.
  unfold Math_max. cbn [fold_left number_max]. rewrite fold_number_max.
  destruct (fold_Zmax_bounds values a) as (Hle & Hall & Hin).
  eexists. split; [reflexivity|]. split.
  - destruct Hin as [->|Hin]; [now left|now right].
  - now constructor.
Qed.

Lemma send_requests (r : Request) (w : World) :
  requests (send r w) = requests w ++ [r].
Proof. reflexivity. Qed.

Lemma fetchData_requests (url : str) (ts : number) (answer : FetchOutcome)
    (w : World) :
  requests (snd (fetchData url ts answer w)) =
  requests w ++ [pageRequest url ts].
Proof.
  unfold fetchData.
  destruct answer as [response|reason]; [|reflexivity].
  destruct (ok response); [|reflexivity]. cbn [negb].
  destruct (json response) as [result|]; [|reflexivity].
  destruct (errors result); [reflexivity|].
  destruct (data result) as [d|]; [|reflexivity].
  destruct (silos d); reflexivity.
Qed.

Lemma fetchData_pageAnswer (url : str) (ts : number) (page : list Silo)
    (w : World) :
  fetchData url ts (pageAnswer page) w = (Return page, send (pageRequest url ts) w).
Proof. reflexivity. Qed.

Lemma loop_continue (chainId url : str) (answer : FetchOutcome)
    (rest : list FetchOutcome) (allTags : list ContractTag) (ts : number)
    (w w1 : World) (page : list Silo) :
  fetchData url ts answer w = (Return page, w1) ->
  length page = 1000%nat ->
  returnTags_loop chainId url (answer :: rest) allTags ts w =
  returnTags_loop chainId url rest
    (allTags ++ fst (transformSilosToTags chainId page (console w1)))
    (Math_max (map createdTimestamp page))
    {| requests := requests w1;
       console := snd (transformSilosToTags chainId page (console w1)) |}.
Proof.
  intros Hfetch Hfull. cbn [returnTags_loop]. rewrite Hfetch.
  destruct (transformSilosToTags chainId page (console w1)) as [tags con].
  rewrite Hfull. reflexivity.
Qed.

Lemma loop_stop (chainId url : str) (answer : FetchOutcome)
    (rest : list FetchOutcome) (allTags : list ContractTag) (ts : number)
    (w w1 : World) (page : list Silo) :
  fetchData url ts answer w = (Return page, w1) ->
  length page <> 1000%nat ->
  returnTags_loop chainId url (answer :: rest) allTags ts w =
  (Settled (Return
              (allTags ++ fst (transformSilosToTags chainId page (console w1)))),
   {| requests := requests w1;
      console := snd (transformSilosToTags chainId page (console w1)) |}).
Proof.
  intros Hfetch Hshort. cbn [returnTags_loop]. rewrite Hfetch.
  destruct (transformSilosToTags chainId page (console w1)) as [tags con].
  apply Nat.eqb_neq in Hshort. rewrite Hshort. reflexivity.
Qed.

Lemma loop_catch (chainId url : str) (answer : FetchOutcome)
    (rest : list FetchOutcome) (allTags : list ContractTag) (ts : number)
    (w w1 : World) (error : JsValue) :
  fetchData url ts answer w = (Throw error, w1) ->
  returnTags_loop chainId url (answer :: rest) allTags ts w =
  (Settled (Throw (fst (catchClause error w1))), snd (catchClause error w1)).
Proof.
  intros Hfetch. cbn [returnTags_loop]. rewrite Hfetch.
  now destruct (catchClause error w1).
Qed.

(** Full pages, then a page that is not full: the loop returns the tags of
    all of them and has asked once per page, each time with the cursor the
    page before gave. *)
Lemma loop_pages (chainId url : str) (pages : list (list Silo))
    (last : list Silo) (rest : list FetchOutcome) :
  Forall (fun page => length page = 1000%nat) pages ->
  length last <> 1000%nat ->
  forall allTags ts w,
    let run := returnTags_loop chainId url
                 (map pageAnswer pages ++ pageAnswer last :: rest)
                 allTags ts w in
    fst run = Settled (Return (allTags ++
                               flat_map (pageTags chainId) (pages ++ [last]))) /\
    requests (snd run) =
      requests w ++ map (pageRequest url) (ts :: map nextCursor pages).
Proof.
  intros Hfull Hshort.
  induction Hfull as [|page pages Hpage _ IH]; intros allTags ts w run.
  - subst run. cbn [map app].
    rewrite (loop_stop _ _ _ _ _ _ _ _ _ (fetchData_pageAnswer _ _ _ _) Hshort).
    cbn [fst snd requests flat_map]. rewrite transformSilosToTags_tags.
    rewrite app_nil_r. split; reflexivity.
  - subst run. cbn [map app].
    rewrite (loop_continue _ _ _ _ _ _ _ _ _ (fetchData_pageAnswer _ _ _ _) Hpage).
    rewrite transformSilosToTags_tags.
    match goal with |- context [returnTags_loop _ _ _ ?a ?t ?v] =>
      destruct (IH a t v) as [Htags Hreqs] end.
    rewrite Htags, Hreqs. cbn [requests send flat_map map].
    rewrite <- !app_assoc. split; reflexivity.
Qed.

Lemma returnTags_resolved (chainId apiKey url : str)
    (answers : list FetchOutcome) :
  prepareUrl chainId apiKey = Return url ->
  returnTags chainId apiKey answers =
  returnTags_loop chainId url answers [] (Finite 0) emptyWorld.
Proof. intros H. unfold returnTags. now rewrite H. Qed.

Lemma filter_all {A} (f : A -> bool) (l : list A) :
  forallb f l = true -> filter f l = l.
Proof.
  induction l as [|a l IH]; [reflexivity|]. cbn [forallb filter].
  intros H. apply andb_true_iff in H as [-> H]. now rewrite IH.
Qed.

(** C6.  Once the URL is resolved, [returnTags] enters the loop with an
    empty accumulator and cursor 0.  Each fetch that succeeds sends one
    request with the current cursor, and the tags of its page are appended
    to the accumulator; the loop goes on exactly when the page holds 1000
    records, and then the next cursor is the greatest creation timestamp of
    that page; otherwise the accumulated list is returned.  So full pages
    followed by a shorter one give one request per page and the tags of
    all pages in order; a page of 1000 and a page of 5, all valid, give 2
    requests and 1005 tags. *)
Theorem returnTags_pagination (chainId apiKey url : str) :
  prepareUrl chainId apiKey = Return url ->
  (forall answers,
      returnTags chainId apiKey answers =
      returnTags_loop chainId url answers [] (Finite 0) emptyWorld) /\
  (forall answer rest allTags ts w page w1,
      fetchData url ts answer w = (Return page, w1) ->
      let tags := fst (transformSilosToTags chainId page (console w1)) in
      let w2 := {| requests := requests w1;
                   console := snd (transformSilosToTags chainId page (console w1)) |} in
      requests w1 = requests w ++ [pageRequest url ts] /\
      tags = map (siloToTag chainId) (filter validSilo page) /\
      (length page = 1000%nat ->
       returnTags_loop chainId url (answer :: rest) allTags ts w =
       returnTags_loop chainId url rest (allTags ++ tags)
         (Math_max (map createdTimestamp page)) w2) /\
      (length page <> 1000%nat ->
       returnTags_loop chainId url (answer :: rest) allTags ts w =
       (Settled (Return (allTags ++ tags)), w2))) /\
  (forall page,
      page <> [] ->
      exists m,
        Math_max (map createdTimestamp page) = Finite m /\
        In m (map createdTimestamp page) /\
        Forall (fun t => (t <= m)%Z) (map createdTimestamp page)) /\
  (forall pages last rest,
      Forall (fun page => length page = 1000%nat) pages ->
      length last <> 1000%nat ->
      let run := returnTags chainId apiKey
                   (map pageAnswer pages ++ pageAnswer last :: rest) in
      fst run = Settled (Return (flat_map (pageTags chainId) (pages ++ [last]))) /\
      requests (snd run) =
        map (pageRequest url) (Finite 0 :: map nextCursor pages)) /\
  (forall first second rest,
      length first = 1000%nat ->
      length second = 5%nat ->
      forallb validSilo (first ++ second) = true ->
      let run := returnTags chainId apiKey
                   (pageAnswer first :: pageAnswer second :: rest) in
      exists tags,
        fst run = Settled (Return tags) /\
        length tags = 1005%nat /\
        requests (snd run) =
          [pageRequest url (Finite 0);
           pageRequest url (Math_max (map createdTimestamp first))]).
Proof.
  intros Hurl.
  split; [intros answers; now apply returnTags_resolved|].
  split.
  { intros answer rest allTags ts w page w1 Hfetch tags w2.
    split.
    { pose proof (fetchData_requests url ts answer w) as H.
      now rewrite Hfetch in H. }
    split; [apply transformSilosToTags_tags|].
    split; intros Hlen.
    - now apply loop_continue.
    - now apply loop_stop. }
  split.
  { intros page Hpage. apply Math_max_greatest.
    destruct page; [congruence|discriminate]. }
  split.
  { intros pages last rest Hfull Hshort run. subst run.
    rewrite (returnTags_resolved _ _ _ _ Hurl).
    destruct (loop_pages chainId url pages last rest Hfull Hshort
                [] (Finite 0) emptyWorld) as [Htags Hreqs].
    split; [exact Htags|exact Hreqs]. }
  intros first second rest Hfirst Hsecond Hvalid run. subst run.
  rewrite (returnTags_resolved _ _ _ _ Hurl).
  assert (Hshort : length second <> 1000%nat) by (rewrite Hsecond; discriminate).
  destruct (loop_pages chainId url [first] second rest
              (Forall_cons _ Hfirst (Forall_nil _)) Hshort
              [] (Finite 0) emptyWorld) as [Htags Hreqs].
  cbn [map app] in Htags, Hreqs.
  eexists. split; [exact Htags|]. split; [|exact Hreqs].
  rewrite forallb_app in Hvalid. apply andb_true_iff in Hvalid as [Hv1 Hv2].
  cbn [flat_map app]. unfold pageTags.
  rewrite !filter_all by assumption.
  rewrite app_nil_r, length_app, !length_map, Hfirst, Hsecond. reflexivity.
Qed.

Lemma returnTags_pagination_witness :
  let url := u16 "https://gateway.thegraph.com/api/key/subgraphs/id/GTEyHhRmhRRJkQfrDWsapcZ8sBKAka4GFej6gn3BpJNq" in
  let run := returnTags (u16 "1") (u16 "key")
               [pageAnswer (examplePage 1 1000);
                pageAnswer (examplePage 1001 5)] in
  prepareUrl (u16 "1") (u16 "key") = Return url /\
  exists tags,
    fst run = Settled (Return tags) /\
    length tags = 1005%nat /\
    requests (snd run) =
      [pageRequest url (Finite 0); pageRequest url (Finite 1000)].
Proof.
  intros url run.
  assert (Hurl : prepareUrl (u16 "1") (u16 "key") = Return url)
    by (vm_compute; reflexivity).
  split; [exact Hurl|].
  destruct (returnTags_pagination (u16 "1") (u16 "key") url Hurl)
    as (_ & _ & _ & _ & H).
  destruct (H (examplePage 1 1000) (examplePage 1001 5) [])
    as (tags & Htags & Hlen & Hreqs).
  - vm_compute. reflexivity.
  - vm_compute. reflexivity.
  - vm_compute. reflexivity.
  - exists tags. split; [exact Htags|]. split; [exact Hlen|].
    subst run. rewrite Hreqs.
    assert (Hmax : Math_max (map createdTimestamp (examplePage 1 1000)) =
                   Finite 1000) by (vm_compute; reflexivity).
    now rewrite Hmax.
Defined.

(** ** Failures *)


Lemma isError_JsErrorObject (errName message : str) :
  isError (JsErrorObject errName message) = true.
Proof. reflexivity. Qed.



(** What [fetchData] throws of its own is an [Error]; anything else it
    throws was thrown by [fetch] or by [response.json()]. *)
Lemma fetchData_throws (url : str) (ts : number) (answer : FetchOutcome)
    (w w1 : World) (error : JsValue) :
  fetchData url ts answer w = (Throw error, w1) ->
  (exists message, error = new_Error message) \/
  answer = fetch_rejects error \/
  (exists response, answer = fetch_resolves response /\
                    json response = Throw error).
Proof.
  unfold fetchData. destruct answer as [response|reason].
  - destruct (ok response); cbn [negb].
    + destruct (json response) as [result|reason] eqn:Ej.
      * destruct (errors result).
        { intros [= <- _]. left. eauto. }
        destruct (data result) as [d|].
        { destruct (silos d); [discriminate|]. intros [= <- _]. left. eauto. }
        intros [= <- _]. left. eauto.
      * intros [= <- _]. right. right. eauto.
    + intros [= <- _]. left. eauto.
  - intros [= <- _]. right. now left.
Qed.

Lemma catchClause_thrown (error : JsValue) (w w' : World) :
  fst (catchClause error w) = fst (catchClause error w').
Proof.
  unfold catchClause. destruct (isError error); [|reflexivity].
  now destruct (template_ToString error).
Qed.

(** Full pages and then a fetch that throws: nothing is returned. *)
Lemma loop_pages_then_failure (chainId url : str) (pages : list (list Silo))
    (answer : FetchOutcome) (rest : list FetchOutcome) (error : JsValue) :
  Forall (fun page => length page = 1000%nat) pages ->
  (forall ts w, fst (fetchData url ts answer w) = Throw error) ->
  forall allTags ts w,
    fst (returnTags_loop chainId url (map pageAnswer pages ++ answer :: rest)
           allTags ts w) =
    Settled (Throw (fst (catchClause error emptyWorld))).
Proof.
  intros Hfull Hthrow.
  induction Hfull as [|page pages Hpage _ IH]; intros allTags ts w.
  - cbn [map app]. specialize (Hthrow ts w).
    destruct (fetchData url ts answer w) as [c w1] eqn:Hfetch.
    cbn [fst] in Hthrow. subst c.
    rewrite (loop_catch _ _ _ _ _ _ _ _ _ Hfetch). cbn [fst].
    now rewrite (catchClause_thrown error w1 emptyWorld).
  - cbn [map app].
    rewrite (loop_continue _ _ _ _ _ _ _ _ _ (fetchData_pageAnswer _ _ _ _) Hpage).
    apply IH.
Qed.





Example catchClause_hidden_toString :
  let caught := JsPlainObject [(u16 "message", JsString (u16 "boom"));
                               (u16 "toString", JsNull)] in
  isError caught = true /\
  fst (returnTags (u16 "1") (u16 "key") [fetch_rejects caught]) =
    Settled (Throw TypeError_primitive).
Proof. split; vm_compute; reflexivity. Qed.

(** ** The fetcher *)

(** C8.  [fetchData] sends one request and then: a response that is not
    [ok] makes it throw the [Error] "HTTP error: <status>"; a body with an
    [errors] list makes it write one "GraphQL error: <message>" line per
    entry and throw the [Error] "GraphQL errors occurred: see logs for
    details.", the same text whatever the entries say; a body without
    [data], or without [data.silos], makes it throw the [Error] "No silos
    data found."; otherwise it returns the records of [data.silos]. *)
Theorem fetchData_outcomes (url : str) (ts : number) (response : Response)
    (w : World) :
  let sent := send (pageRequest url ts) w in
  (ok response = false ->
   fetchData url ts (fetch_resolves response) w =
   (Throw (new_Error (u16 "HTTP error: " ++ Z_to_str (status response))),
    sent)) /\
  (forall result errs,
      ok response = true ->
      json response = Return result ->
      errors result = Some errs ->
      fetchData url ts (fetch_resolves response) w =
      (Throw (new_Error (u16 "GraphQL errors occurred: see logs for details.")),
       write (map (fun error =>
                     console_error (u16 "GraphQL error: " ++ message error))
                  errs) sent)) /\
  (forall result,
      ok response = true ->
      json response = Return result ->
      errors result = None ->
      data result = None \/
      (exists d, data result = Some d /\ silos d = None) ->
      fetchData url ts (fetch_resolves response) w =
      (Throw (new_Error (u16 "No silos data found.")), sent)) /\
  (forall result d page,
      ok response = true ->
      json response = Return result ->
      errors result = None ->
      data result = Some d ->
      silos d = Some page ->
      fetchData url ts (fetch_resolves response) w = (Return page, sent)) /\
  Z_to_str 500 = u16 "500" /\
  Z_to_str 404 = u16 "404".
Proof.
  intros sent. unfold fetchData. fold sent.
  split; [intros ->; reflexivity|].
  split; [intros result errs -> -> ->; reflexivity|].
  split.
  { intros result -> -> -> [->|(d & -> & ->)]; reflexivity. }
  split; [intros result d page -> -> -> -> ->; reflexivity|].
  split; reflexivity.
Qed.

(** ** Further properties: validation and tags *)

Lemma htmlTag_rest_app (a b : str) :
  htmlTag_rest (a ++ b) = htmlTag_rest a || htmlTag_rest b.
Proof.
  induction a as [|c a IH]; [reflexivity|]. cbn [app htmlTag_rest].
  now destruct (c =? 62).
Qed.

(** A match in a concatenation lies in the first part, in the second, or
    opens in the first and closes in the second. *)
Lemma htmlTag_test_app (a b : str) :
  htmlTag_test (a ++ b) =
  htmlTag_test a || (existsb (N.eqb 60) a && htmlTag_rest b) || htmlTag_test b.
Proof.
  induction a as [|c a IH]; [reflexivity|].
  cbn [app htmlTag_test existsb]. rewrite htmlTag_rest_app, IH.
  rewrite (N.eqb_sym 60 c).
  destruct (c =? 60), (htmlTag_rest a), (htmlTag_rest b), (htmlTag_test a),
    (existsb (N.eqb 60) a), (htmlTag_test b); reflexivity.
Qed.

Lemma htmlTag_test_firstn (n : nat) (s : str) :
  htmlTag_test (firstn n s) = true -> htmlTag_test s = true.
Proof.
  intros H. rewrite <- (firstn_skipn n s), htmlTag_test_app, H. reflexivity.
Qed.

Lemma whiteSpace_not_bracket (c : code_unit) :
  isWhiteSpace c = true -> (c =? 60) = false /\ (c =? 62) = false.
Proof.
  intros H.
  split; apply N.eqb_neq; intros ->; vm_compute in H; discriminate H.
Qed.

Lemma whiteSpace_no_tag (pad : str) :
  forallb isWhiteSpace pad = true ->
  htmlTag_test pad = false /\ existsb (N.eqb 60) pad = false /\
  htmlTag_rest pad = false.
Proof.
  induction pad as [|c pad IH]; [now repeat split|].
  cbn [forallb htmlTag_test existsb htmlTag_rest]. intros H.
  apply andb_true_iff in H as [Hc Hpad].
  destruct (whiteSpace_not_bracket c Hc) as [H60 H62].
  destruct (IH Hpad) as (-> & -> & ->).
  rewrite (N.eqb_sym 60 c), H60, H62. now repeat split.
Qed.

Lemma isEmpty_whiteSpace (text : str) :
  str_eqb (trim text) [] = forallb isWhiteSpace text.
Proof.
  destruct (forallb isWhiteSpace text) eqn:E.
  - apply str_eqb_eq, trim_nil, E.
  - apply str_eqb_neq. intros H. apply trim_nil in H. congruence.
Qed.

(** X1.  [truncateString] never returns more than [maxLength] code units,
    except that the ellipsis alone, three code units, is returned when a
    longer text meets a [maxLength] below 3; what it returns starts as the
    text does. *)
Theorem truncateString_bound (text : str) (maxLength : nat) :
  (length (truncateString text maxLength) <= Nat.max maxLength 3)%nat /\
  firstn (maxLength - 3) (truncateString text maxLength) =
    firstn (maxLength - 3) text /\
  ((maxLength < 3)%nat -> (maxLength < length text)%nat ->
   truncateString text maxLength = u16 "...").
Proof.
  unfold truncateString, substring0.
  destruct (Nat.ltb_spec maxLength (length text)) as [Hlt|Hge].
  - split; [|split].
    + rewrite length_app, length_firstn. cbn [length u16 map list_ascii_of_string].
      lia.
    + rewrite firstn_app, firstn_firstn, Nat.min_id, length_firstn.
      replace (maxLength - 3 - Nat.min (maxLength - 3) (length text))%nat
        with 0%nat by lia.
      cbn [firstn]. now rewrite app_nil_r.
    + intros Hsmall _. replace (maxLength - 3)%nat with 0%nat by lia.
      reflexivity.
  - split; [lia|]. split; [reflexivity|]. lia.
Qed.

(** X2.  The public name tag of every tag that [transformSilosToTags]
    returns has at most 50 code units: at most 45 of the name and the 5 of
    " Silo". *)
Theorem public_name_length (chainId : str) (silos : list Silo) (con : Console) :
  Forall (fun tag =>
            exists text, field "Public Name Tag" tag = Some text /\
                         (length text <= 50)%nat)
         (fst (transformSilosToTags chainId silos con)).
Proof.
  rewrite transformSilosToTags_tags. apply Forall_map, Forall_forall.
  intros silo _. unfold field, siloToTag. cbn [own_property].
  vm_compute (str_eqb _ _). eexists. split; [reflexivity|].
  rewrite length_app.
  destruct (Nat.le_gt_cases (length (name silo)) 45) as [Hshort|Hlong].
  - rewrite truncateString_short by exact Hshort.
    cbn [length u16 map list_ascii_of_string]. lia.
  - destruct (truncateString_long (name silo) 45) as [_ ->]; [lia|].
    cbn [length u16 map list_ascii_of_string]. lia.
Qed.

Lemma filter_partition_length {A} (f : A -> bool) (l : list A) :
  (length (filter f l) + length (filter (fun x => negb (f x)) l) = length l)%nat.
Proof.
  induction l as [|a l IH]; [reflexivity|]. cbn [filter].
  destruct (f a); cbn [negb length]; lia.
Qed.

(** X3.  Every record of a page is either turned into a tag or named in the
    rejection log, never both and never neither: the number of tags and the
    number of rejected records add up to the number of records, and the
    console gains one entry when a record was rejected and none
    otherwise. *)
Theorem transform_accounts_for_all (chainId : str) (silos : list Silo)
    (con : Console) :
  let out := transformSilosToTags chainId silos con in
  (length (fst out) + length (filter invalidSilo silos) = length silos)%nat /\
  (length (fst out) <= length silos)%nat /\
  (length (fst out) = length silos <-> forallb validSilo silos = true) /\
  length (snd out) =
    (length con + if forallb validSilo silos then 0 else 1)%nat.
Proof.
  intros out. subst out.
  rewrite transformSilosToTags_tags, transformSilosToTags_console, length_map.
  pose proof (filter_partition_length invalidSilo silos) as Hpart.
  assert (Hvalid : filter (fun x => negb (invalidSilo x)) silos =
                   filter validSilo silos) by reflexivity.
  rewrite Hvalid in Hpart.
  assert (Hall : forallb validSilo silos = true <->
                 filter invalidSilo silos = []).
  { clear. induction silos as [|silo silos IH]; [now split|].
    cbn [forallb filter]. unfold validSilo at 1.
    destruct (invalidSilo silo) eqn:E; unfold invalidSilo in E; rewrite E;
      cbn [negb andb]; [split; discriminate|exact IH]. }
  split; [lia|]. split; [lia|]. split.
  - rewrite Hall. split.
    + intros H. apply length_zero_iff_nil. lia.
    + intros H. rewrite H in Hpart. cbn [length] in Hpart. lia.
  - destruct (forallb validSilo silos) eqn:E.
    + destruct Hall as [Hnil _]. rewrite (Hnil eq_refl). lia.
    + destruct (filter invalidSilo silos) eqn:Ef.
      * destruct Hall as [_ Hback]. discriminate (Hback eq_refl).
      * rewrite length_app. reflexivity.
Qed.

(** X4.  Transforming a list of records gives the tags of its first part
    followed by the tags of the rest, whatever each call finds on the
    console. *)
Theorem transform_app (chainId : str) (first rest : list Silo)
    (con con1 con2 : Console) :
  fst (transformSilosToTags chainId (first ++ rest) con) =
  fst (transformSilosToTags chainId first con1) ++
  fst (transformSilosToTags chainId rest con2).
Proof.
  rewrite !transformSilosToTags_tags. now rewrite filter_app, map_app.
Qed.

(** X5.  On one chain, two records get the same tag exactly when they agree
    on identifier and name; the creation timestamp leaves no trace in the
    tag. *)
Theorem siloToTag_injective (chainId : str) (a b : Silo) :
  siloToTag chainId a = siloToTag chainId b <->
  id a = id b /\ name a = name b.
Proof.
  split.
  - intros H. split; [|now apply (siloToTag_name chainId)].
    unfold siloToTag in H.
    assert (E : u16 "eip155:" ++ chainId ++ u16 ":" ++ id a =
                u16 "eip155:" ++ chainId ++ u16 ":" ++ id b) by congruence.
    now repeat apply app_inv_head in E.
  - intros [Hid Hname]. unfold siloToTag. now rewrite Hid, Hname.
Qed.

(** X6.  White space around a name does not change whether it is valid: a
    name is refused exactly when it is white space only or holds a [<]
    with a [>] after it, and padding changes neither. *)
Theorem validity_ignores_padding (left right text : str) :
  forallb isWhiteSpace left = true ->
  forallb isWhiteSpace right = true ->
  containsInvalidValue (left ++ text ++ right) = containsInvalidValue text /\
  containsInvalidValue text = forallb isWhiteSpace text || htmlTag_test text.
Proof.
  intros Hl Hr. unfold containsInvalidValue. rewrite !isEmpty_whiteSpace.
  split; [|reflexivity].
  rewrite !forallb_app, Hl, Hr, andb_true_r. cbn [andb].
  rewrite !htmlTag_test_app, htmlTag_rest_app.
  destruct (whiteSpace_no_tag left Hl) as (-> & -> & _).
  destruct (whiteSpace_no_tag right Hr) as (-> & _ & ->).
  cbn [orb andb]. now rewrite !orb_false_r, andb_false_r, orb_false_r.
Qed.

Lemma validity_ignores_padding_witness :
  containsInvalidValue (u16 "  " ++ u16 "a<b>" ++ [9; 160]) =
    containsInvalidValue (u16 "a<b>") /\
  containsInvalidValue (u16 "a<b>") =
    forallb isWhiteSpace (u16 "a<b>") || htmlTag_test (u16 "a<b>").
Proof.
  apply (validity_ignores_padding (u16 "  ") [9; 160] (u16 "a<b>"));
    reflexivity.
Defined.

(** X7.  No tag carries markup in its public name tag or in its note: in
    both, the pattern [/<[^>]*>/] that refuses a name finds nothing,
    truncated or not. *)
Theorem tags_hold_no_markup (chainId : str) (silos : list Silo) (con : Console) :
  Forall (fun tag =>
            exists publicName note,
              field "Public Name Tag" tag = Some publicName /\
              field "Public Note" tag = Some note /\
              htmlTag_test publicName = false /\
              htmlTag_test note = false)
         (fst (transformSilosToTags chainId silos con)).
Proof.
  rewrite transformSilosToTags_tags. apply Forall_map, Forall_forall.
  intros silo Hin. apply filter_In in Hin as [_ Hvalid].
  unfold validSilo, containsInvalidValue in Hvalid.
  apply negb_true_iff, orb_false_iff in Hvalid as [_ Hname].
  unfold field, siloToTag. cbn [own_property]. vm_compute (str_eqb _ _).
  eexists. eexists. split; [reflexivity|]. split; [reflexivity|].
  assert (Hcut : htmlTag_test (truncateString (name silo) 45) = false).
  { unfold truncateString, substring0.
    destruct (45 <? length (name silo))%nat; [|exact Hname].
    rewrite htmlTag_test_app.
    destruct (htmlTag_test (firstn (45 - 3) (name silo))) eqn:E.
    - apply htmlTag_test_firstn in E. congruence.
    - change (htmlTag_rest (u16 "...")) with false.
      change (htmlTag_test (u16 "...")) with false.
      now rewrite andb_false_r. }
  split.
  - rewrite htmlTag_test_app, Hcut.
    change (htmlTag_rest (u16 " Silo")) with false.
    change (htmlTag_test (u16 " Silo")) with false.
    now rewrite andb_false_r.
  - rewrite !htmlTag_test_app, Hname.
    change (htmlTag_test (u16 "Silo v1's official ")) with false.
    change (existsb (N.eqb 60) (u16 "Silo v1's official ")) with false.
    change (htmlTag_rest (u16 " Silo contract.")) with false.
    change (htmlTag_test (u16 " Silo contract.")) with false.
    cbn [andb orb]. now rewrite andb_false_r.
Qed.

(** ** Further properties: the URL resolver *)

Lemma supported_entry (chainId : str) :
  In chainId supportedChainIds ->
  exists u before after,
    own_property SUBGRAPH_URLS chainId = Some u /\
    isNaN_Number chainId = false /\
    split_first placeholder (decentralized u) = Some (before, after) /\
    forallb (fun c => negb (c =? 91)) (before ++ after) = true /\
    forallb (fun c => negb ((c =? 63) || (c =? 35) || (c =? 32)))
            (before ++ after) = true.
Proof.
  intros Hin. cbn [supportedChainIds map In] in Hin.
  destruct Hin as [<-|[<-|[<-|[<-|[]]]]];
    eexists; eexists; eexists; repeat split; vm_compute; reflexivity.
Qed.

Lemma encodeURIComponent_unescaped (s : str) :
  forallb isUriUnescaped s = true -> encodeURIComponent s = Return s.
Proof.
  induction s as [|c s IH]; [reflexivity|].
  cbn [forallb]. intros H. apply andb_true_iff in H as [Hc Hs].
  rewrite encodeURIComponent_cons, Hc, (IH Hs). reflexivity.
Qed.

Lemma encodeURIComponent_returns (s : str) :
  isWellFormed s = true -> exists r, encodeURIComponent s = Return r.
Proof.
  induction s as [| c | c d s IHs IHds] using str_pair_ind.
  - intros _. now exists [].
  - rewrite isWellFormed_cons, encodeURIComponent_cons.
    destruct (isUriUnescaped c); [intros _; cbn; eauto|].
    destruct (isTrailingSurrogate c); [discriminate|].
    destruct (isLeadingSurrogate c); [discriminate|].
    intros _. cbn. eauto.
  - rewrite isWellFormed_cons, encodeURIComponent_cons.
    destruct (isUriUnescaped c) eqn:Eu.
    + destruct (unescaped_not_surrogate c Eu) as [-> ->].
      intros Hw. destruct (IHds Hw) as [r ->]. cbn. eauto.
    + destruct (isTrailingSurrogate c); [discriminate|].
      destruct (isLeadingSurrogate c).
      * intros Hw. apply andb_true_iff in Hw as [-> Hw].
        destruct (IHs Hw) as [r ->]. cbn. eauto.
      * intros Hw. destruct (IHds Hw) as [r ->]. cbn. eauto.
Qed.

Lemma isUriOutput_no_delimiter (c : code_unit) :
  isUriOutput c = true -> c <> 47 /\ c <> 63 /\ c <> 35 /\ c <> 32.
Proof.
  unfold isUriOutput, isUriUnescaped, isAlpha, isDigit, isUriMark.
  intros H. nbool. lia.
Qed.

(** X8.  A credential made of letters, digits and [- _ . ! ~ * ' ( )] only
    is put into the URL as it is. *)
Theorem prepareUrl_unreserved_verbatim (chainId apiKey : str) :
  In chainId supportedChainIds ->
  forallb isUriUnescaped apiKey = true ->
  exists u before after,
    own_property SUBGRAPH_URLS chainId = Some u /\
    decentralized u = before ++ placeholder ++ after /\
    prepareUrl chainId apiKey = Return (before ++ apiKey ++ after).
Proof.
  intros Hin Hplain.
  destruct (supported_entry chainId Hin)
    as (u & before & after & Hown & Hnum & Hsplit & _ & _).
  exists u, before, after. split; [exact Hown|].
  split; [now apply split_first_sound|].
  rewrite (prepareUrl_own _ _ u Hown Hnum).
  rewrite (encodeURIComponent_unescaped apiKey Hplain). cbn [bind].
  rewrite (replace_plain _ _ before after); trivial.
  rewrite forallb_forall in Hplain. intros H36.
  apply Hplain in H36. discriminate H36.
Qed.

Lemma prepareUrl_unreserved_verbatim_witness :
  exists u before after,
    own_property SUBGRAPH_URLS (u16 "10") = Some u /\
    decentralized u = before ++ placeholder ++ after /\
    prepareUrl (u16 "10") (u16 "a1b2-C3_d4") =
      Return (before ++ u16 "a1b2-C3_d4" ++ after).
Proof.
  apply (prepareUrl_unreserved_verbatim (u16 "10") (u16 "a1b2-C3_d4")).
  - cbv. tauto.
  - reflexivity.
Defined.

(** X9.  Whatever the credential, it stays inside its path segment: a URL
    that [prepareUrl] returns has as many slashes as the chain's template,
    and no question mark, hash sign or space. *)
Theorem prepareUrl_keeps_shape (chainId apiKey url : str) :
  In chainId supportedChainIds ->
  isString apiKey = true ->
  prepareUrl chainId apiKey = Return url ->
  exists u,
    own_property SUBGRAPH_URLS chainId = Some u /\
    count_occ N.eq_dec url 47 = count_occ N.eq_dec (decentralized u) 47 /\
    ~ In 63 url /\ ~ In 35 url /\ ~ In 32 url.
Proof.
  intros Hin Hs Hurl.
  destruct (supported_entry chainId Hin)
    as (u & before & after & Hown & Hnum & Hsplit & Hfree & Hdelim).
  destruct (isWellFormed apiKey) eqn:Hw.
  2:{ rewrite (prepareUrl_own _ _ u Hown Hnum) in Hurl.
      rewrite (encodeURIComponent_malformed apiKey Hw) in Hurl.
      discriminate Hurl. }
  destruct (prepareUrl_entry chainId apiKey u before after
              Hown Hnum Hsplit Hfree Hs Hw)
    as (key & Ht & _ & Hout & Hret & _).
  rewrite Hret in Hurl. injection Hurl as <-.
  exists u. split; [exact Hown|].
  rewrite forallb_forall in Hout.
  assert (Hkey : forall c, In c key -> c <> 47 /\ c <> 63 /\ c <> 35 /\ c <> 32).
  { intros c Hc. now apply isUriOutput_no_delimiter, Hout. }
  split.
  - rewrite Ht, !count_occ_app.
    change code_unit with N.
    assert (Hz : count_occ N.eq_dec key 47 = 0%nat).
    { apply count_occ_not_In. intros Hc. apply Hkey in Hc. tauto. }
    assert (Hp : count_occ N.eq_dec placeholder 47 = 0%nat) by reflexivity.
    lia.
  - rewrite forallb_app, andb_true_iff, !forallb_forall in Hdelim.
    destruct Hdelim as [Hb Ha].
    assert (Hno : forall c, (c = 63 \/ c = 35 \/ c = 32) ->
                            ~ In c (before ++ key ++ after)).
    { intros c Hc. rewrite !in_app_iff. intros [H|[H|H]].
      - apply Hb in H. destruct Hc as [ -> | [ -> | -> ] ]; discriminate H.
      - apply Hkey in H. lia.
      - apply Ha in H. destruct Hc as [ -> | [ -> | -> ] ]; discriminate H. }
    repeat split; apply Hno; tauto.
Qed.

Lemma prepareUrl_keeps_shape_witness :
  exists u,
    own_property SUBGRAPH_URLS (u16 "42161") = Some u /\
    count_occ N.eq_dec
      (u16 "https://gateway.thegraph.com/api/..%2F..%2Fx%3Fq%3D1%232/subgraphs/id/2ufoztRpybsgogPVW6j9NTn1JmBWFYPKbP7pAabizADU")
      47 = count_occ N.eq_dec (decentralized u) 47 /\
    ~ In 63 (u16 "https://gateway.thegraph.com/api/..%2F..%2Fx%3Fq%3D1%232/subgraphs/id/2ufoztRpybsgogPVW6j9NTn1JmBWFYPKbP7pAabizADU") /\
    ~ In 35 (u16 "https://gateway.thegraph.com/api/..%2F..%2Fx%3Fq%3D1%232/subgraphs/id/2ufoztRpybsgogPVW6j9NTn1JmBWFYPKbP7pAabizADU") /\
    ~ In 32 (u16 "https://gateway.thegraph.com/api/..%2F..%2Fx%3Fq%3D1%232/subgraphs/id/2ufoztRpybsgogPVW6j9NTn1JmBWFYPKbP7pAabizADU").
Proof.
  apply (prepareUrl_keeps_shape (u16 "42161") (u16 "../../x?q=1#2")).
  - cbv. tauto.
  - reflexivity.
  - vm_compute. reflexivity.
Defined.

(** X10.  [prepareUrl] returns a URL exactly when the chain identifier is
    one of the four of the table and the credential is well formed; in
    every other case it throws. *)
Theorem prepareUrl_returns_iff (chainId apiKey : str) :
  (exists url, prepareUrl chainId apiKey = Return url) <->
  In chainId supportedChainIds /\ isWellFormed apiKey = true.
Proof.
  split.
  - intros [url Hurl].
    destruct (in_dec (list_eq_dec N.eq_dec) chainId supportedChainIds)
      as [Hin|Hout].
    + split; [exact Hin|].
      destruct (supported_entry chainId Hin)
        as (u & _ & _ & Hown & Hnum & _).
      destruct (isWellFormed apiKey) eqn:Hw; [reflexivity|].
      rewrite (prepareUrl_own _ _ u Hown Hnum) in Hurl.
      rewrite (encodeURIComponent_malformed apiKey Hw) in Hurl.
      discriminate Hurl.
    + rewrite prepareUrl_throws in Hurl; [discriminate Hurl|].
      apply own_property_absent. now rewrite SUBGRAPH_URLS_keys.
  - intros [Hin Hw].
    destruct (supported_entry chainId Hin)
      as (u & _ & _ & Hown & Hnum & _).
    destruct (encodeURIComponent_returns apiKey Hw) as [key Hkey].
    rewrite (prepareUrl_own _ _ u Hown Hnum), Hkey. cbn [bind]. eauto.
Qed.

(** ** Further properties: the loop and its failures *)

Lemma catchClause_world (error : JsValue) (w : World) :
  exists line, snd (catchClause error w) = write [console_error line] w.
Proof.
  unfold catchClause. destruct (isError error).
  - destruct (template_ToString error); cbn [snd]; eauto.
  - cbn [snd]. eauto.
Qed.

(** X11.  A chain that is not served, or a credential that is not well
    formed, ends [returnTags] before anything is fetched: it throws what
    [prepareUrl] throws, no request is sent and nothing is written,
    whatever the network would have answered. *)
Theorem returnTags_refuses_before_fetch (chainId apiKey : str)
    (answers : list FetchOutcome) :
  ~ (In chainId supportedChainIds /\ isWellFormed apiKey = true) ->
  exists e,
    prepareUrl chainId apiKey = Throw e /\
    fst (returnTags chainId apiKey answers) = Settled (Throw e) /\
    requests (snd (returnTags chainId apiKey answers)) = [] /\
    console (snd (returnTags chainId apiKey answers)) = [].
Proof.
  intros Hbad.
  assert (Hthrow : exists e, prepareUrl chainId apiKey = Throw e).
  { destruct (in_dec (list_eq_dec N.eq_dec) chainId supportedChainIds)
      as [Hin|Hout].
    - destruct (supported_entry chainId Hin) as (u & _ & _ & Hown & Hnum & _).
      destruct (isWellFormed apiKey) eqn:Hw; [tauto|].
      rewrite (prepareUrl_own _ _ u Hown Hnum).
      rewrite (encodeURIComponent_malformed apiKey Hw). cbn [bind]. eauto.
    - rewrite prepareUrl_throws; [eauto|].
      apply own_property_absent. now rewrite SUBGRAPH_URLS_keys. }
  destruct Hthrow as [e He]. exists e. unfold returnTags. rewrite He.
  now repeat split.
Qed.

Lemma returnTags_refuses_before_fetch_witness :
  exists e,
    prepareUrl (u16 "137") (u16 "key") = Throw e /\
    fst (returnTags (u16 "137") (u16 "key") [pageAnswer (examplePage 1 3)]) =
      Settled (Throw e) /\
    requests (snd (returnTags (u16 "137") (u16 "key")
                     [pageAnswer (examplePage 1 3)])) = [] /\
    console (snd (returnTags (u16 "137") (u16 "key")
                    [pageAnswer (examplePage 1 3)])) = [].
Proof.
  apply (returnTags_refuses_before_fetch (u16 "137") (u16 "key")).
  intros [Hin _]. cbv in Hin. intuition discriminate.
Defined.

Lemma loop_requests (chainId url : str) (answers : list FetchOutcome) :
  forall allTags ts w,
    let run := returnTags_loop chainId url answers allTags ts w in
    exists sent,
      requests (snd run) = requests w ++ sent /\
      Forall (fun r => request_url r = url) sent /\
      (1 <= length sent <= length answers + 1)%nat /\
      (forall c, fst run = Settled c -> (length sent <= length answers)%nat) /\
      (fst run = Awaiting -> length sent = (length answers + 1)%nat).
Proof.
  induction answers as [|answer rest IH]; intros allTags ts w run.
  - subst run. cbn [returnTags_loop fst snd]. exists [pageRequest url ts].
    rewrite send_requests. cbn [length].
    repeat split; try lia; [now repeat constructor|discriminate].
  - subst run.
    pose proof (fetchData_requests url ts answer w) as Hreq.
    destruct (fetchData url ts answer w) as [[page|error] w1] eqn:Hfetch;
      cbn [snd] in Hreq.
    + destruct (Nat.eq_dec (length page) 1000) as [Hfull|Hshort].
      * rewrite (loop_continue _ _ _ _ _ _ _ _ _ Hfetch Hfull).
        match goal with |- context [returnTags_loop _ _ _ ?a ?t ?v] =>
          destruct (IH a t v) as (sent & Hs & Hurl & Hlen & Hset & Haw) end.
        exists (pageRequest url ts :: sent). cbn [requests] in Hs.
        cbn [length].
        split; [now rewrite Hs, Hreq, <- app_assoc|].
        split; [now constructor|].
        split; [lia|]. split.
        -- intros c Hc. specialize (Hset c Hc). lia.
        -- intros Hc. specialize (Haw Hc). lia.
      * rewrite (loop_stop _ _ _ _ _ _ _ _ _ Hfetch Hshort).
        exists [pageRequest url ts]. cbn [fst snd requests length].
        rewrite Hreq. repeat split; try lia; [now repeat constructor|].
        discriminate.
    + rewrite (loop_catch _ _ _ _ _ _ _ _ _ Hfetch). cbn [fst snd].
      destruct (catchClause_world error w1) as [line ->].
      exists [pageRequest url ts]. cbn [write requests length].
      rewrite Hreq. repeat split; try lia; [now repeat constructor|].
      discriminate.
Qed.

(** X12.  Every request of a run goes to the one URL that [prepareUrl]
    resolved; a run sends at most one request more than the answers it is
    given, and a run that settles has sent no more requests than it
    received answers. *)
Theorem returnTags_requests (chainId apiKey : str)
    (answers : list FetchOutcome) :
  let run := returnTags chainId apiKey answers in
  (forall r, In r (requests (snd run)) ->
             prepareUrl chainId apiKey = Return (request_url r)) /\
  (length (requests (snd run)) <= length answers + 1)%nat /\
  (forall c, fst run = Settled c ->
             (length (requests (snd run)) <= length answers)%nat).
Proof.
  intros run. subst run. unfold returnTags.
  destruct (prepareUrl chainId apiKey) as [url|e].
  - destruct (loop_requests chainId url answers [] (Finite 0) emptyWorld)
      as (sent & Hs & Hurl & Hlen & Hset & _).
    cbn [emptyWorld requests app] in Hs. rewrite Hs.
    split; [|split; [lia|exact Hset]].
    intros r Hr. rewrite Forall_forall in Hurl. now rewrite (Hurl r Hr).
  - cbn [fst snd emptyWorld requests length].
    split; [contradiction|]. split; lia.
Qed.



(** X14.  A call of [fetchData] sends exactly one request, with the URL
    and cursor it was given, whether it returns or throws; it writes to the
    console only "GraphQL error: ..." lines, and nothing at all when it
    returns a page. *)
Theorem fetchData_footprint (url : str) (ts : number) (answer : FetchOutcome)
    (w : World) :
  let out := fetchData url ts answer w in
  requests (snd out) = requests w ++ [pageRequest url ts] /\
  exists lines,
    console (snd out) =
      console w ++
      map (fun line => console_error (u16 "GraphQL error: " ++ line)) lines /\
    (forall page, fst out = Return page -> lines = []).
Proof.
  intros out. subst out. split; [apply fetchData_requests|].
  unfold fetchData.
  destruct answer as [response|reason].
  2:{ exists []. cbn. now rewrite app_nil_r. }
  destruct (ok response); cbn [negb].
  2:{ exists []. cbn. now rewrite app_nil_r. }
  destruct (json response) as [result|reason].
  2:{ exists []. cbn. now rewrite app_nil_r. }
  destruct (errors result) as [errs|].
  { exists (map message errs). cbn [fst snd write console send].
    rewrite map_map. split; [reflexivity|discriminate]. }
  destruct (data result) as [d|].
  2:{ exists []. cbn. now rewrite app_nil_r. }
  destruct (silos d); exists []; cbn; now rewrite app_nil_r.
Qed.

Lemma catchClause_new_Error (c : code_unit) (text : str) (w : World) :
  fst (catchClause (new_Error (c :: text)) w) =
  new_Error (u16 "Failed fetching data: Error: " ++ c :: text).
Proof. reflexivity. Qed.

(** X15.  Each failure that [fetchData] raises by itself reaches the caller
    of [returnTags] under the same prefix, after any number of full pages:
    "Failed fetching data: Error: HTTP error: <status>" for a response that
    is not [ok], "Failed fetching data: Error: GraphQL errors occurred: see
    logs for details." for a body with an [errors] list, and "Failed
    fetching data: Error: No silos data found." for a body without
    [data.silos]. *)
Theorem failure_messages (chainId url : str) (pages : list (list Silo))
    (response : Response) (rest : list FetchOutcome)
    (allTags : list ContractTag) (ts : number) (w : World) :
  Forall (fun page => length page = 1000%nat) pages ->
  let outcome :=
    fst (returnTags_loop chainId url
           (map pageAnswer pages ++ fetch_resolves response :: rest)
           allTags ts w) in
  (ok response = false ->
   outcome =
   Settled (Throw (new_Error
                     (u16 "Failed fetching data: Error: HTTP error: " ++
                      Z_to_str (status response))))) /\
  (forall result errs,
      ok response = true -> json response = Return result ->
      errors result = Some errs ->
      outcome =
      Settled (Throw (new_Error
                        (u16 "Failed fetching data: Error: GraphQL errors occurred: see logs for details.")))) /\
  (forall result,
      ok response = true -> json response = Return result ->
      errors result = None ->
      data result = None \/ (exists d, data result = Some d /\ silos d = None) ->
      outcome =
      Settled (Throw (new_Error
                        (u16 "Failed fetching data: Error: No silos data found.")))).
Proof.
  intros Hfull outcome. subst outcome.
  split; [|split].
  - intros Hok.
    rewrite (loop_pages_then_failure chainId url pages _ rest
               (new_Error (u16 "HTTP error: " ++ Z_to_str (status response)))
               Hfull).
    + reflexivity.
    + intros ts' w'. unfold fetchData. now rewrite Hok.
  - intros result errs Hok Hjson Herrs.
    rewrite (loop_pages_then_failure chainId url pages _ rest
               (new_Error (u16 "GraphQL errors occurred: see logs for details."))
               Hfull).
    + reflexivity.
    + intros ts' w'. unfold fetchData. now rewrite Hok, Hjson, Herrs.
  - intros result Hok Hjson Herrs Hdata.
    rewrite (loop_pages_then_failure chainId url pages _ rest
               (new_Error (u16 "No silos data found.")) Hfull).
    + reflexivity.
    + intros ts' w'. unfold fetchData. rewrite Hok, Hjson, Herrs.
      destruct Hdata as [->|(d & -> & ->)]; reflexivity.
Qed.

Lemma failure_messages_witness :
  fst (returnTags_loop (u16 "1") (u16 "https://example.invalid/")
         (map pageAnswer [examplePage 1 1000] ++
          fetch_resolves {| ok := false; status := 429; json := Throw JsNull |}
          :: [])
         [] (Finite 0) emptyWorld) =
  Settled (Throw (new_Error
                    (u16 "Failed fetching data: Error: HTTP error: 429"))).
Proof.
  refine (proj1 (failure_messages (u16 "1") (u16 "https://example.invalid/")
                   [examplePage 1 1000]
                   {| ok := false; status := 429; json := Throw JsNull |}
                   [] [] (Finite 0) emptyWorld _) eq_refl).
  repeat constructor.
Defined.

(** The loop keeps the accumulator free of tags of refused records. *)
Lemma loop_returns_valid (chainId url : str) (answers : list FetchOutcome) :
  forall allTags ts w tags,
    Forall (fun tag => exists silo,
                validSilo silo = true /\ tag = siloToTag chainId silo) allTags ->
    fst (returnTags_loop chainId url answers allTags ts w) =
      Settled (Return tags) ->
    Forall (fun tag => exists silo,
                validSilo silo = true /\ tag = siloToTag chainId silo) tags.
Proof.
  induction answers as [|answer rest IH]; intros allTags ts w tags Hacc.
  - discriminate.
  - destruct (fetchData url ts answer w) as [[page|error] w1] eqn:Hfetch.
    + assert (Hnew : Forall (fun tag => exists silo,
                        validSilo silo = true /\ tag = siloToTag chainId silo)
                       (allTags ++
                        fst (transformSilosToTags chainId page (console w1)))).
      { apply Forall_app. split; [exact Hacc|].
        rewrite transformSilosToTags_tags. apply Forall_map, Forall_forall.
        intros silo Hin. apply filter_In in Hin as [_ Hvalid]. eauto. }
      destruct (Nat.eq_dec (length page) 1000) as [Hfull|Hshort].
      * rewrite (loop_continue _ _ _ _ _ _ _ _ _ Hfetch Hfull).
        now apply IH.
      * rewrite (loop_stop _ _ _ _ _ _ _ _ _ Hfetch Hshort). cbn [fst].
        intros [= <-]. exact Hnew.
    + rewrite (loop_catch _ _ _ _ _ _ _ _ _ Hfetch). discriminate.
Qed.

(** X16.  However the network answers, a list of tags that [returnTags]
    returns holds only tags of records whose name passed validation. *)
Theorem returned_tags_are_valid (chainId apiKey : str)
    (answers : list FetchOutcome) (tags : list ContractTag) :
  fst (returnTags chainId apiKey answers) = Settled (Return tags) ->
  Forall (fun tag => exists silo,
              validSilo silo = true /\ tag = siloToTag chainId silo) tags.
Proof.
  unfold returnTags. destruct (prepareUrl chainId apiKey) as [url|e].
  - apply loop_returns_valid. constructor.
  - discriminate.
Qed.

Lemma returned_tags_are_valid_witness :
  Forall (fun tag => exists silo,
              validSilo silo = true /\ tag = siloToTag (u16 "1") silo)
         [siloToTag (u16 "1")
            {| id := u16 "0xa"; name := u16 "Alpha"; createdTimestamp := 3 |}].
Proof.
  apply (returned_tags_are_valid (u16 "1") (u16 "key")
           [pageAnswer
              [ {| id := u16 "0xa"; name := u16 "Alpha"; createdTimestamp := 3 |};
                {| id := u16 "0xb"; name := u16 "<i>"; createdTimestamp := 4 |} ]]).
  vm_compute. reflexivity.
Defined.

Lemma pageTags_concat (chainId : str) (pages : list (list Silo)) :
  flat_map (pageTags chainId) pages = pageTags chainId (concat pages).
Proof.
  induction pages as [|page pages IH]; [reflexivity|].
  cbn [flat_map concat]. unfold pageTags in *.
  now rewrite IH, filter_app, map_app.
Qed.

(** X17.  Paging does not show in the result: when full pages are followed
    by a shorter one, [returnTags] returns what [transformSilosToTags]
    makes of all the records in one call. *)
Theorem paging_is_transparent (chainId apiKey url : str)
    (pages : list (list Silo)) (last : list Silo) (rest : list FetchOutcome)
    (con : Console) :
  prepareUrl chainId apiKey = Return url ->
  Forall (fun page => length page = 1000%nat) pages ->
  length last <> 1000%nat ->
  fst (returnTags chainId apiKey
         (map pageAnswer pages ++ pageAnswer last :: rest)) =
  Settled (Return (fst (transformSilosToTags chainId
                          (concat (pages ++ [last])) con))).
Proof.
  intros Hurl Hfull Hshort.
  rewrite (returnTags_resolved _ _ _ _ Hurl).
  destruct (loop_pages chainId url pages last rest Hfull Hshort
              [] (Finite 0) emptyWorld) as [Htags _].
  rewrite Htags. cbn [app].
  now rewrite pageTags_concat, transformSilosToTags_tags.
Qed.

Lemma paging_is_transparent_witness :
  fst (returnTags (u16 "1") (u16 "key")
         (map pageAnswer [examplePage 1 1000] ++
          pageAnswer (examplePage 1001 5) :: [])) =
  Settled (Return (fst (transformSilosToTags (u16 "1")
                          (concat ([examplePage 1 1000] ++ [examplePage 1001 5]))
                          []))).
Proof.
  apply (paging_is_transparent (u16 "1") (u16 "key")
           (u16 "https://gateway.thegraph.com/api/key/subgraphs/id/GTEyHhRmhRRJkQfrDWsapcZ8sBKAka4GFej6gn3BpJNq")).
  - vm_compute. reflexivity.
  - repeat constructor.
  - vm_compute. discriminate.
Defined.

Lemma increasing_cursors (cursor : number) (pages : list (list Silo)) :
  Forall (fun page => length page = 1000%nat) pages ->
  respectsCursor cursor pages ->
  increasing (cursor :: map nextCursor pages).
Proof.
  intros Hfull. revert cursor.
  induction Hfull as [|page pages Hpage _ IH]; intros cursor Hresp.
  - exact I.
  - destruct Hresp as [Hpage_after Hrest].
    cbn [map]. split; [|now apply IH].
    destruct (Math_max_greatest (map createdTimestamp page))
      as (m & Hm & Hin & _).
    { destruct page; [discriminate Hpage|discriminate]. }
    unfold nextCursor. rewrite Hm.
    apply in_map_iff in Hin as (silo & <- & Hin).
    rewrite Forall_forall in Hpage_after. now apply Hpage_after.
Qed.

(** X18.  When every page holds only records created after the cursor it
    was asked with, as the query's filter demands, the cursors of the
    requests of a run grow strictly: no request repeats an earlier one. *)
Theorem cursors_grow (chainId apiKey url : str) (pages : list (list Silo))
    (last : list Silo) (rest : list FetchOutcome) :
  prepareUrl chainId apiKey = Return url ->
  Forall (fun page => length page = 1000%nat) pages ->
  length last <> 1000%nat ->
  respectsCursor (Finite 0) pages ->
  increasing
    (map request_lastTimestamp
       (requests (snd (returnTags chainId apiKey
                         (map pageAnswer pages ++ pageAnswer last :: rest))))).
Proof.
  intros Hurl Hfull Hshort Hresp.
  rewrite (returnTags_resolved _ _ _ _ Hurl).
  destruct (loop_pages chainId url pages last rest Hfull Hshort
              [] (Finite 0) emptyWorld) as [_ Hreqs].
  rewrite Hreqs. cbn [emptyWorld requests app].
  rewrite map_map. cbn [pageRequest request_lastTimestamp].
  rewrite map_id. now apply increasing_cursors.
Qed.

Lemma cursors_grow_witness :
  increasing
    (map request_lastTimestamp
       (requests (snd (returnTags (u16 "1") (u16 "key")
                         (map pageAnswer [examplePage 1 1000] ++
                          pageAnswer (examplePage 1001 5) :: []))))).
Proof.
  apply (cursors_grow (u16 "1") (u16 "key")
           (u16 "https://gateway.thegraph.com/api/key/subgraphs/id/GTEyHhRmhRRJkQfrDWsapcZ8sBKAka4GFej6gn3BpJNq")).
  - vm_compute. reflexivity.
  - repeat constructor.
  - vm_compute. discriminate.
  - split; [|exact I]. unfold examplePage. apply Forall_map, Forall_forall.
    intros i Hi. apply in_seq in Hi. cbn [number_lt createdTimestamp]. lia.
Defined.

(** X19.  The loop sets no limit of its own on the number of pages: as long
    as every answer is a full page it keeps asking, so after [n] full pages
    it has sent [n + 1] requests and is still waiting. *)
Theorem full_pages_never_settle (chainId url : str) (pages : list (list Silo))
    (allTags : list ContractTag) (ts : number) (w : World) :
  Forall (fun page => length page = 1000%nat) pages ->
  let run := returnTags_loop chainId url (map pageAnswer pages) allTags ts w in
  fst run = Awaiting /\
  requests (snd run) =
    requests w ++ map (pageRequest url) (ts :: map nextCursor pages).
Proof.
  intros Hfull. revert allTags ts w.
  induction Hfull as [|page pages Hpage _ IH]; intros allTags ts w run.
  - subst run. cbn. split; reflexivity.
  - subst run. cbn [map].
    rewrite (loop_continue _ _ _ _ _ _ _ _ _ (fetchData_pageAnswer _ _ _ _) Hpage).
    match goal with |- context [returnTags_loop _ _ _ ?a ?t ?v] =>
      destruct (IH a t v) as [Haw Hreqs] end.
    split; [exact Haw|]. rewrite Hreqs. cbn [requests send map].
    now rewrite <- app_assoc.
Qed.

Lemma full_pages_never_settle_witness :
  fst (returnTags_loop (u16 "1") (u16 "https://example.invalid/")
         (map pageAnswer [examplePage 1 1000; examplePage 1001 1000])
         [] (Finite 0) emptyWorld) = Awaiting /\
  requests (snd (returnTags_loop (u16 "1") (u16 "https://example.invalid/")
                   (map pageAnswer [examplePage 1 1000; examplePage 1001 1000])
                   [] (Finite 0) emptyWorld)) =
    requests emptyWorld ++
    map (pageRequest (u16 "https://example.invalid/"))
        (Finite 0 :: map nextCursor [examplePage 1 1000; examplePage 1001 1000]).
Proof.
  apply (full_pages_never_settle (u16 "1") (u16 "https://example.invalid/")
           [examplePage 1 1000; examplePage 1001 1000] [] (Finite 0) emptyWorld).
  repeat constructor.
Defined.
